(** * Service-area redundancy analysis of Missouri healthcare facilities

    A shallow embedding of [analyze_service_redundancy] from
    [src/analysis/redundancy_analysis.py]: the construction of the facility
    list from the three source frames, the pairwise distance matrix, the
    overlap (neighbour) counter, the ranking by overlaps, the redundancy
    score, the greedy consolidation clustering and the saved report.

    Conventions of the embedding.
    - A Python float is a value of [float]: a finite rational, an infinity
      or NaN, with the IEEE comparisons written out ([NaN] compares false
      with everything, [!=] is the negation of [==]).  Every finite binary64
      value is a rational, so the finite case loses nothing for comparisons.
    - [haversine_distance] is floating-point trigonometry; it is a parameter
      of the development (a [Variable] of the section), so every theorem
      holds whatever distance the formula returns.  Coordinates on which
      the [math] functions raise are outside the model.
    - [DataFrame.nlargest] on a frame of at most [k] rows sorts with
      NumPy's quicksort, which is not stable; the order it leaves equal
      values in is a parameter too ([quicksort_ties]), so every theorem
      holds whatever that order is.
    - The three frames are taken as loaded (lines 36-66, file access and
      the filters on hospital names and on missing RHC coordinates, come
      before).
    - A data-frame row is a finite map from column names to cells; numeric
      and text columns are kept apart.  A missing text cell (pandas NaN) is
      [None].
    - A data frame indexed by [RangeIndex] is a list; the columns added by
      the analysis ([overlaps], [overlap_types]) are lists of the same
      length.
    - Python exceptions are values of [result]. *)

From Stdlib Require Import ZArith QArith Qabs Lia String Ascii Sorted.
From stdpp Require Import gmap strings list sorting.

Open Scope string_scope.
Open Scope list_scope.
Open Scope nat_scope.
Open Scope stdpp_scope.

(** ** Floats *)

Inductive float : Type :=
  | Fin (q : Q)
  | PInf
  | NInf
  | NaN.

(** [x == y] *)
Definition float_eqb (x y : float) : bool :=
  match x, y with
  | Fin a, Fin b => Qeq_bool a b
  | PInf, PInf => true
  | NInf, NInf => true
  | _, _ => false
  end.

(** [x != y] *)
Definition float_neb (x y : float) : bool := negb (float_eqb x y).

(** [x <= y] *)
Definition float_leb (x y : float) : bool :=
  match x, y with
  | NaN, _ | _, NaN => false
  | NInf, _ => true
  | _, PInf => true
  | Fin a, Fin b => Qle_bool a b
  | _, _ => false
  end.

(** [pd.isna] on a float *)
Definition isna (x : float) : bool :=
  match x with NaN => true | _ => false end.

Definition zero : float := Fin 0.

(** ** Rows of the source frames and facilities *)

Inductive ftype : Type := Hospital | RHC | FQHC.

Global Instance ftype_eq_dec : EqDecision ftype.
Proof. solve_decision. Defined.

Global Instance ftype_countable : Countable ftype.
Proof.
  refine (inj_countable'
    (fun t => match t with Hospital => 0 | RHC => 1 | FQHC => 2 end)
    (fun k => match k with 0 => Hospital | 1 => RHC | _ => FQHC end) _).
  by intros [].
Defined.

Record row : Type := Row {
  num_cols : gmap string float;
  txt_cols : gmap string (option string)
}.

(** [row.get(key, dflt)] on a numeric column and on a text column *)
Definition get_num (r : row) (key : string) (dflt : float) : float :=
  default dflt (num_cols r !! key).

Definition get_txt (r : row) (key : string) (dflt : option string)
  : option string :=
  default dflt (txt_cols r !! key).

Record facility : Type := Facility {
  name : option string;
  type : ftype;
  subtype : option string;
  lat : float;
  lon : float;
  city : option string
}.

Definition Unknown : option string := Some "Unknown".

(** Body of the loop over [hospitals.iterrows()]: [None] when the row is
    skipped. *)
Definition hospital_entry (hosp : row) : option facility :=
  let lat := get_num hosp "latitude" zero in
  let lon := get_num hosp "longitude" zero in
  if float_neb lat zero && float_neb lon zero then
    Some {| name := get_txt hosp "Facility Name" Unknown;
            type := Hospital;
            subtype := get_txt hosp "Hospital Type" Unknown;
            lat := lat;
            lon := lon;
            city := get_txt hosp "City/Town" Unknown |}
  else None.

(** [pd.isna(name) or name == ''] *)
Definition blank (s : option string) : bool :=
  match s with
  | None => true
  | Some s => String.eqb s ""
  end.

(** Body of the loop over [rhcs.iterrows()]. *)
Definition rhc_entry (rhc : row) : option facility :=
  let lat := get_num rhc "Latitude" (get_num rhc "latitude" zero) in
  let lon := get_num rhc "Longitude" (get_num rhc "longitude" zero) in
  if float_neb lat zero && float_neb lon zero
     && negb (isna lat) && negb (isna lon) then
    let name0 :=
      get_txt rhc "ORGANIZATION NAME" (get_txt rhc "Clinic Name" Unknown) in
    let name1 :=
      if blank name0 then get_txt rhc "DOING BUSINESS AS NAME" Unknown
      else name0 in
    Some {| name := name1;
            type := RHC;
            subtype := Some "Rural Health Clinic";
            lat := lat;
            lon := lon;
            city := get_txt rhc "CITY" (get_txt rhc "City" Unknown) |}
  else None.

(** Body of the loop over [fqhcs.iterrows()]. *)
Definition fqhc_entry (fqhc : row) : option facility :=
  let lat := get_num fqhc "Latitude" zero in
  let lon := get_num fqhc "Longitude" zero in
  if float_neb lat zero && float_neb lon zero then
    Some {| name :=
              get_txt fqhc "Site_Name" (get_txt fqhc "Organization_Name" Unknown);
            type := FQHC;
            subtype := get_txt fqhc "Rural_Urban" Unknown;
            lat := lat;
            lon := lon;
            city := get_txt fqhc "City" Unknown |}
  else None.

(** The list [facilities] after the three loops (lines 69-114). *)
Definition prepare_facilities (hospitals rhcs fqhcs : list row)
  : list facility :=
  omap hospital_entry hospitals ++ omap rhc_entry rhcs
    ++ omap fqhc_entry fqhcs.

(** The latitude and longitude the loop of each category reads from a row,
    and the loop body of each category. *)
Definition row_lat (t : ftype) (r : row) : float :=
  match t with
  | Hospital => get_num r "latitude" zero
  | RHC => get_num r "Latitude" (get_num r "latitude" zero)
  | FQHC => get_num r "Latitude" zero
  end.

Definition row_lon (t : ftype) (r : row) : float :=
  match t with
  | Hospital => get_num r "longitude" zero
  | RHC => get_num r "Longitude" (get_num r "longitude" zero)
  | FQHC => get_num r "Longitude" zero
  end.

Definition entry_of (t : ftype) : row -> option facility :=
  match t with
  | Hospital => hospital_entry
  | RHC => rhc_entry
  | FQHC => fqhc_entry
  end.

(** ** Exceptions *)

Inductive exn : Type := KeyError.

Inductive result (A : Type) : Type :=
  | Ok (a : A)
  | Raise (e : exn).
Arguments Ok {A} a.
Arguments Raise {A} e.

(** ** The saved report ([results], written to the JSON file) *)

Module Results.
Record top_entry : Type := TopEntry {
  name : option string;
  type : ftype;
  city : option string;
  overlaps : nat
}.

Record report : Type := Report {
  total_facilities : nat;
  hospitals : nat;
  rhcs : nat;
  fqhcs : nat;
  redundancy_score : Q;
  isolated_facilities : nat;
  consolidation_clusters : nat;
  top_redundant_facilities : list top_entry;
  consolidation_opportunities : nat
}.
End Results.

(** ** Data files *)

(** A data file as pandas reads it: the names of its columns and its rows.
    Every row has a cell for every column of its frame (a missing value is
    the cell NaN, [None] in a text column). *)
Record frame : Type := Frame {
  frame_columns : list string;
  frame_rows : list row
}.

(** The three data files, [None] for a file that does not exist. *)
Record data_files : Type := DataFiles {
  hospital_file : option frame;
  rhc_file : option frame;
  fqhc_file : option frame
}.

(** ** Strings in sorted order, and the mode of a column *)

Fixpoint insert_sorted (s : string) (l : list string) : list string :=
  match l with
  | [] => [s]
  | t :: l' => if String.leb s t then s :: l else t :: insert_sorted s l'
  end.

Definition sort_strings (l : list string) : list string :=
  foldr insert_sorted [] l.

(** Number of cells of a column equal to [s]. *)
Definition occurrences (s : string) (l : list string) : nat :=
  length (filter (fun t => t = s) l).

(** [Series.mode()] of a text column: missing cells are dropped, the values
    of highest frequency are returned in sorted order. *)
Definition mode (col : list (option string)) : list string :=
  let vals := omap id col in
  let top := max_list ((fun s => occurrences s vals) <$> vals) in
  sort_strings
    (remove_dups (filter (fun s => occurrences s vals = top) vals)).

(** [Series.value_counts()] of the [type] column, as the dict it is turned
    into. *)
Definition value_counts (l : list ftype) : gmap ftype nat :=
  foldr (fun t m => <[t := S (default 0 (m !! t))]> m) ∅ l.

(** ** Ranking: [DataFrame.nlargest(k, column)]

    The rows with the [k] largest values, in descending order.  pandas
    computes them in one of two ways.

    - When the frame has more than [k] rows, the selection sorts the
      candidates with a merge sort, which is stable: among equal values the
      earlier row comes first ([keep='first']).
    - When the frame has at most [k] rows ([n >= len(self.obj)]), it
      returns [sort_values(ascending=False).head(k)], and [sort_values]
      sorts with NumPy's default quicksort, which is not stable: equal
      values come in the order the routine leaves them, which depends on
      the NumPy build.  That order is the parameter [before]:
      [before i j = true] when the routine leaves row [i] before row [j]
      among rows of equal value. *)

Fixpoint insert_desc (key : nat -> nat) (x : nat) (l : list nat) : list nat :=
  match l with
  | [] => [x]
  | y :: l' =>
      if key x <? key y then y :: insert_desc key x l' else x :: l
  end.

(** The stable descending sort of the selection's merge-sort path. *)
Definition sort_desc (key : nat -> nat) (l : list nat) : list nat :=
  foldr (insert_desc key) [] l.

Fixpoint insert_values (before : nat -> nat -> bool) (key : nat -> nat)
    (x : nat) (l : list nat) : list nat :=
  match l with
  | [] => [x]
  | y :: l' =>
      if (key x <? key y) || ((key x =? key y) && before y x)
      then y :: insert_values before key x l'
      else x :: l
  end.

(** [Series.sort_values(ascending=False)] with the default
    [kind='quicksort']. *)
Definition sort_values (before : nat -> nat -> bool) (key : nat -> nat)
    (l : list nat) : list nat :=
  foldr (insert_values before key) [] l.

Definition nlargest (before : nat -> nat -> bool) (k : nat)
    (key : nat -> nat) (index : list nat) : list nat :=
  if k <? length index
  then take k (sort_desc key index)
  else take k (sort_values before key index).

(** [range(a, b)] *)
Definition range (a b : nat) : list nat := seq a (b - a).

(** [np.zeros((n, m))] *)
Definition zeros (n m : nat) : list (list float) :=
  replicate n (replicate m zero).

(** [d[i][j]]; every use below is within the bounds of [d]. *)
Definition mget (d : list (list float)) (i j : nat) : float :=
  default zero (d !! i ≫= (fun r => r !! j)).

(** [d[i][j] = v] *)
Definition mset (d : list (list float)) (i j : nat) (v : float)
  : list (list float) :=
  alter (fun r => <[j := v]> r) i d.

(** [SERVICE_RADIUS = 20] *)
Definition SERVICE_RADIUS : Q := 20.

(** ** Worked inputs

    Facilities on one meridian.  Between two points of equal longitude the
    haversine formula returns 3959 * |lat2 - lat1| * pi / 180 miles;
    [meridian_miles] is this value with 355/113 for pi (relative error below
    one part in ten million).  It is used on the worked inputs only, whose
    distances all stay more than a third of a mile away from the two
    thresholds of the analysis. *)

Definition meridian_miles (lat1 lon1 lat2 lon2 : float) : float :=
  match lat1, lat2 with
  | Fin a, Fin b => Fin (Qabs (b - a) * 3959 * (355 # 113) / 180)
  | _, _ => NaN
  end.

(** A distance of exactly 20 miles between any two points. *)
Definition twenty_miles (lat1 lon1 lat2 lon2 : float) : float := Fin 20.

(** A clinic of the given city at latitude [la], longitude -92. *)
Definition clinic (c : string) (la : Q) : facility :=
  {| name := Some ("Clinic " ++ c)%string;
     type := RHC;
     subtype := Some "Rural Health Clinic";
     lat := Fin la;
     lon := Fin (-92);
     city := Some c |}.

(** Seven clinics; the overlaps within 20 miles are 5, 5, 5, 6, 6, 6, 3. *)
Definition line_of_seven : list facility :=
  [ clinic "A" 38.00; clinic "B" 38.07; clinic "C" 38.12; clinic "D" 38.17;
    clinic "E" 38.23; clinic "F" 38.28; clinic "G" 38.43 ].

(** Six clinics within four miles, of two cities in alternation. *)
Definition two_cities : list facility :=
  [ clinic "Springfield" 38.00; clinic "Columbia" 38.01;
    clinic "Springfield" 38.02; clinic "Columbia" 38.03;
    clinic "Springfield" 38.04; clinic "Columbia" 38.05 ].

(** Sixteen clinics within eleven miles. *)
Definition sixteen_close : list facility :=
  (fun k => clinic "Rolla" (38 + inject_Z (Z.of_nat k) / 100))
    <$> seq 0 16.

(** Two clinics, and three clinics some 69 miles from one another. *)
Definition two_clinics : list facility :=
  [ clinic "A" 38; clinic "B" 38.3 ].

Definition far_apart : list facility :=
  [ clinic "A" 38; clinic "B" 39; clinic "C" 40 ].

(** Two orders a quicksort can leave equal values in: the earlier row
    first, and the later row first. *)
Definition earlier_first (i j : nat) : bool := i <? j.

Definition later_first (i j : nat) : bool := j <? i.

(** Rows of the source frames. *)
Definition located_row (lat_col lon_col : string) (la lo : float) : row :=
  {| num_cols := <[lat_col := la]> (<[lon_col := lo]> ∅);
     txt_cols := ∅ |}.

(** A case-sensitive search for one word, standing for the regular
    expression of the cleaning on the worked inputs. *)
Definition mentions_mental (s : string) : bool :=
  match index 0 "MENTAL" s with
  | Some _ => true
  | None => false
  end.

Definition named_row (facility_name : string) (la lo : float) : row :=
  {| num_cols := <["latitude" := la]> (<["longitude" := lo]> ∅);
     txt_cols := <["Facility Name" := Some facility_name]> ∅ |}.

(** Three small data files: three hospitals, of which one is excluded by
    name and one has no coordinates; two RHC rows, of which one has no
    latitude; one FQHC. *)
Definition hospital_frame : frame :=
  {| frame_columns := ["Facility Name"; "latitude"; "longitude"];
     frame_rows :=
       [ named_row "MERCY HOSPITAL" (Fin 38) (Fin (-92));
         named_row "STATE MENTAL HOSPITAL" (Fin 38.1) (Fin (-92));
         named_row "NO PLACE HOSPITAL" zero zero ] |}.

Definition rhc_frame : frame :=
  {| frame_columns := ["latitude"; "longitude"];
     frame_rows :=
       [ located_row "latitude" "longitude" (Fin 38.2) (Fin (-92));
         located_row "latitude" "longitude" NaN (Fin (-92)) ] |}.

Definition fqhc_frame : frame :=
  {| frame_columns := ["Latitude"; "Longitude"];
     frame_rows :=
       [ located_row "Latitude" "Longitude" (Fin 38.3) (Fin (-92)) ] |}.

Definition three_files : data_files :=
  {| hospital_file := Some hospital_frame;
     rhc_file := Some rhc_frame;
     fqhc_file := Some fqhc_frame |}.

Definition no_files : data_files :=
  {| hospital_file := None; rhc_file := None; fqhc_file := None |}.

(** ** The analysis *)

Section Analysis.

(** [haversine_distance lat1 lon1 lat2 lon2]: the great-circle distance in
    miles, as the floating-point formula returns it. *)
Variable haversine_distance : float -> float -> float -> float -> float.

(** [quicksort_ties i j]: among rows with equal values, NumPy's quicksort
    leaves row [i] before row [j].  The analysis is followed for every such
    order. *)
Variable quicksort_ties : nat -> nat -> bool.

(** [coords = facilities_df[['lat', 'lon']].values] *)
Definition coords_of (facilities : list facility) : list (float * float) :=
  (fun f => (lat f, lon f)) <$> facilities.

(** [coords[i]]; every use below is within the bounds of [coords]. *)
Definition coord_at (coords : list (float * float)) (i : nat)
  : float * float :=
  default (zero, zero) (coords !! i).

(** Body of the inner loop of lines 127-133.  The state is the matrix and
    the list of the calls of [haversine_distance] made so far, each call
    recorded by its index pair. *)
Definition pair_step (coords : list (float * float)) (i : nat)
    (st : list (list float) * list (nat * nat)) (j : nat)
  : list (list float) * list (nat * nat) :=
  let dist :=
    haversine_distance (coord_at coords i).1 (coord_at coords i).2
                       (coord_at coords j).1 (coord_at coords j).2 in
  (mset (mset st.1 i j dist) j i dist, st.2 ++ [(i, j)]).

(** Lines 125-133. *)
Definition distance_loop (coords : list (float * float))
  : list (list float) * list (nat * nat) :=
  let n_facilities := length coords in
  foldl (fun st i => foldl (pair_step coords i) st (range (i + 1) n_facilities))
        (zeros n_facilities n_facilities, [])
        (range 0 n_facilities).

Definition distances (facilities : list facility) : list (list float) :=
  (distance_loop (coords_of facilities)).1.

Definition distance_calls (facilities : list facility) : list (nat * nat) :=
  (distance_loop (coords_of facilities)).2.

(** Body of the inner loop of lines 153-156: the state is
    [(overlap_count, overlapping)]. *)
Definition overlap_step (facilities : list facility) (d : list (list float))
    (radius : Q) (i : nat) (st : nat * list ftype) (j : nat)
  : nat * list ftype :=
  if negb (i =? j) && float_leb (mget d i j) (Fin radius) then
    (st.1 + 1, st.2 ++ (type <$> option_list (facilities !! j)))
  else st.

(** Lines 149-162 for one [i]: the values stored in the columns [overlaps]
    and [overlap_types] of row [i].  The second column holds the rendering
    of [type_counts] (the empty string when there is no overlap); it is
    modelled by the counts it renders. *)
Definition overlap_row (facilities : list facility) (d : list (list float))
    (radius : Q) (i : nat) : nat * gmap ftype nat :=
  let n_facilities := length facilities in
  let st := foldl (overlap_step facilities d radius i) (0, [])
                  (range 0 n_facilities) in
  (st.1, if (0 <? st.1) then value_counts st.2 else ∅).

(** The column [overlaps] for a service radius. *)
Definition overlaps_within (radius : Q) (facilities : list facility)
  : list nat :=
  (fun i => (overlap_row facilities (distances facilities) radius i).1)
    <$> range 0 (length facilities).

(** The column [overlap_types] for a service radius. *)
Definition overlap_types_within (radius : Q) (facilities : list facility)
  : list (gmap ftype nat) :=
  (fun i => (overlap_row facilities (distances facilities) radius i).2)
    <$> range 0 (length facilities).

Definition overlaps (facilities : list facility) : list nat :=
  overlaps_within SERVICE_RADIUS facilities.

Definition overlap_types (facilities : list facility)
  : list (gmap ftype nat) :=
  overlap_types_within SERVICE_RADIUS facilities.

(** [facilities_df.loc[i, 'overlaps']] *)
Definition overlaps_at (facilities : list facility) (i : nat) : nat :=
  default 0 (overlaps facilities !! i).

(** [top_redundant = facilities_df.nlargest(15, 'overlaps')], as the index
    labels of the selected rows. *)
Definition top_redundant (facilities : list facility) : list nat :=
  nlargest quicksort_ties 15 (overlaps_at facilities)
    (range 0 (length facilities)).

(** [isolated = facilities_df[facilities_df['overlaps'] == 0]] *)
Definition isolated (facilities : list facility) : list nat :=
  filter (fun i => overlaps_at facilities i = 0)
         (range 0 (length facilities)).

(** [facilities_df['overlaps'].sum()] *)
Definition overlaps_sum (radius : Q) (facilities : list facility) : nat :=
  sum_list (overlaps_within radius facilities).

(** Lines 233-234.  The two divisions are exact here; the float the code
    holds is the rounding of this rational. *)
Definition redundancy_score_within (radius : Q) (facilities : list facility)
  : Q :=
  let total_overlaps :=
    (inject_Z (Z.of_nat (overlaps_sum radius facilities)) / 2)%Q in
  (total_overlaps / inject_Z (Z.of_nat (length facilities)))%Q.

Definition redundancy_score (facilities : list facility) : Q :=
  redundancy_score_within SERVICE_RADIUS facilities.

(** [high_overlap = facilities_df[facilities_df['overlaps'] >= 5]], as index
    labels: a boolean mask keeps the rows in the order of the frame. *)
Definition high_overlap (facilities : list facility) : list nat :=
  filter (fun i => 5 <= overlaps_at facilities i)
         (range 0 (length facilities)).

(** Body of the inner loop of lines 255-258: the state is
    [(cluster, visited)]. *)
Definition scan_step (d : list (list float)) (i : nat)
    (st : list nat * gset nat) (j : nat) : list nat * gset nat :=
  if negb (j =? i) && negb (bool_decide (j ∈ st.2))
     && float_leb (mget d i j) (Fin (SERVICE_RADIUS / 2)) then
    (st.1 ++ [j], {[j]} ∪ st.2)
  else st.

(** Body of the outer loop of lines 249-261: the state is
    [(consolidation_opportunities, visited)]. *)
Definition seed_step (d : list (list float)) (n_facilities : nat)
    (st : list (list nat) * gset nat) (i : nat)
  : list (list nat) * gset nat :=
  if bool_decide (i ∈ st.2) then st
  else
    let scanned :=
      foldl (scan_step d i) ([i], {[i]} ∪ st.2) (range 0 n_facilities) in
    (if (2 <? length scanned.1) then st.1 ++ [scanned.1] else st.1,
     scanned.2).

(** Lines 246-261. *)
Definition consolidation_opportunities (facilities : list facility)
  : list (list nat) :=
  (foldl (seed_step (distances facilities) (length facilities))
         ([], ∅) (high_overlap facilities)).1.

(** [facilities_df.iloc[cluster]['city']] *)
Definition cluster_cities (facilities : list facility) (cluster : list nat)
  : list (option string) :=
  omap (fun i => city <$> facilities !! i) cluster.

(** Line 268. *)
Definition dominant_city (facilities : list facility) (cluster : list nat)
  : string :=
  match mode (cluster_cities facilities cluster) with
  | c :: _ => c
  | [] => "Multiple"
  end.

(** Line 269, as a dict. *)
Definition cluster_types (facilities : list facility) (cluster : list nat)
  : gmap ftype nat :=
  value_counts (omap (fun i => type <$> facilities !! i) cluster).

(** Lines 266-273: what is printed for the first five clusters. *)
Definition cluster_summaries (facilities : list facility)
  : list (string * nat * gmap ftype nat) :=
  (fun cluster =>
     (dominant_city facilities cluster, length cluster,
      cluster_types facilities cluster))
    <$> take 5 (consolidation_opportunities facilities).

(** [len(facilities_df[facilities_df['type'] == t])] *)
Definition count_type (t : ftype) (facilities : list facility) : nat :=
  length (filter (fun f => type f = t) facilities).

(** One record of [top_redundant[['name', 'type', 'city', 'overlaps']]]. *)
Definition top_record (facilities : list facility) (i : nat)
  : option Results.top_entry :=
  (fun f => Results.TopEntry (name f) (type f) (city f)
                             (overlaps_at facilities i))
    <$> facilities !! i.

(** Lines 298-311, without [estimated_inefficiency] (a float product). *)
Definition results (facilities : list facility) : Results.report :=
  {| Results.total_facilities := length facilities;
     Results.hospitals := count_type Hospital facilities;
     Results.rhcs := count_type RHC facilities;
     Results.fqhcs := count_type FQHC facilities;
     Results.redundancy_score := redundancy_score facilities;
     Results.isolated_facilities := length (isolated facilities);
     Results.consolidation_clusters :=
       length (consolidation_opportunities facilities);
     Results.top_redundant_facilities :=
       omap (top_record facilities) (take 10 (top_redundant facilities));
     Results.consolidation_opportunities :=
       length (consolidation_opportunities facilities) |}.

(** What a run leaves behind: the returned frame with its two added
    columns, the returned matrix, the clusters and the saved report. *)
Record outcome : Type := Outcome {
  out_facilities : list facility;
  out_overlaps : list nat;
  out_overlap_types : list (gmap ftype nat);
  out_distances : list (list float);
  out_clusters : list (list nat);
  out_results : Results.report
}.

(** The whole function on the three loaded frames.  When no row survives
    the three loops, [pd.DataFrame([])] has no columns and line 121,
    [facilities_df[['lat', 'lon']]], raises [KeyError]. *)
Definition analyze_service_redundancy (hospitals rhcs fqhcs : list row)
  : result outcome :=
  let facilities := prepare_facilities hospitals rhcs fqhcs in
  match facilities with
  | [] => Raise KeyError
  | _ :: _ =>
      Ok {| out_facilities := facilities;
            out_overlaps := overlaps facilities;
            out_overlap_types := overlap_types facilities;
            out_distances := distances facilities;
            out_clusters := consolidation_opportunities facilities;
            out_results := results facilities |}
  end.

(** ** The properties the analysis is measured against *)

(** The distance between two facilities, by the formula. *)
Definition facility_distance (f g : facility) : float :=
  haversine_distance (lat f) (lon f) (lat g) (lon g).

(** The distance between the facilities at positions [i] and [j]: zero from
    a facility to itself, otherwise the formula applied to the earlier and
    the later one. *)
Definition distance (facilities : list facility) (i j : nat) : float :=
  match facilities !! Nat.min i j, facilities !! Nat.max i j with
  | Some f, Some g => if (i =? j) then zero else facility_distance f g
  | _, _ => zero
  end.

(** The unordered pairs of positions below [n], each as [(i, j)] with
    [i < j]. *)
Definition unordered_pairs (n : nat) : list (nat * nat) :=
  i ← range 0 n; (fun j => (i, j)) <$> range (i + 1) n.

(** The neighbours of facility [i] within a radius. *)
Definition neighbours (radius : Q) (facilities : list facility) (i : nat)
  : list nat :=
  filter (fun j => j ≠ i ∧ float_leb (distance facilities i j) (Fin radius))
         (range 0 (length facilities)).

(** The unordered pairs within a radius of each other. *)
Definition pairs_within (radius : Q) (facilities : list facility)
  : list (nat * nat) :=
  filter (fun p => float_leb (distance facilities p.1 p.2) (Fin radius))
         (unordered_pairs (length facilities)).

(** Rank order: the larger key first, the earlier row first among equals. *)
Definition rank_order (key : nat → nat) (i j : nat) : Prop :=
  key j < key i ∨ (key i = key j ∧ i < j).

Definition ranked_before (facilities : list facility) : nat → nat → Prop :=
  rank_order (overlaps_at facilities).

(** The larger count first; nothing is said of equal counts. *)
Definition more_overlaps_first (facilities : list facility) (i j : nat)
  : Prop :=
  overlaps_at facilities j ≤ overlaps_at facilities i.

(** All facilities in rank order. *)
Definition ranking (facilities : list facility) : list nat :=
  sort_desc (overlaps_at facilities) (range 0 (length facilities)).

(** The cluster grown from seed [i]: the seed, then every other facility
    not yet visited and within 10 miles of the seed. *)
Definition cluster_around (facilities : list facility) (visited : gset nat)
    (i : nat) : list nat :=
  i :: filter (fun j => j ≠ i ∧ (j ∉ visited)
                        ∧ float_leb (distance facilities i j) (Fin 10))
              (range 0 (length facilities)).

(** Greedy clustering from a sequence of seeds: a visited seed is passed
    over; an unvisited one grows a cluster, whose members all become
    visited; clusters of fewer than three members are dropped. *)
Fixpoint clusters_from_seeds (facilities : list facility)
    (seeds : list nat) (visited : gset nat) : list (list nat) :=
  match seeds with
  | [] => []
  | i :: seeds' =>
      if decide (i ∈ visited) then
        clusters_from_seeds facilities seeds' visited
      else
        let cluster := cluster_around facilities visited i in
        (if decide (3 ≤ length cluster) then [cluster] else [])
          ++ clusters_from_seeds facilities seeds'
               (list_to_set cluster ∪ visited)
  end.

(** The seeds (at least 5 overlaps) in rank order, and in input order. *)
Definition seeds_in_rank_order (facilities : list facility) : list nat :=
  filter (fun i => 5 ≤ overlaps_at facilities i) (ranking facilities).

Definition seeds_in_input_order (facilities : list facility) : list nat :=
  filter (fun i => 5 ≤ overlaps_at facilities i)
         (range 0 (length facilities)).

(** The most frequent label of a column, the first one met among the most
    frequent ones. *)
Definition mode_first_met (col : list (option string)) : option string :=
  let vals := omap id col in
  let top := max_list ((fun s => occurrences s vals) <$> vals) in
  head (filter (fun s => occurrences s vals = top) vals).

(** An [n] by [n] array. *)
Definition square (n : nat) (d : list (list float)) : Prop :=
  length d = n ∧ ∀ i r, d !! i = Some r → length r = n.

(** The call of the formula on the coordinates at positions [i] and [j]. *)
Definition call_at (coords : list (float * float)) (i j : nat) : float :=
  haversine_distance (coord_at coords i).1 (coord_at coords i).2
                     (coord_at coords j).1 (coord_at coords j).2.

(** State of the matrix loop: the array is square, every recorded call has
    its first index below its second, and an entry holds the result of the
    call recorded for its pair of positions, or zero when there is none. *)
Definition matrix_inv (coords : list (float * float))
    (st : list (list float) * list (nat * nat)) : Prop :=
  let n := length coords in
  square n st.1
  ∧ (∀ p, p ∈ st.2 → p.1 < p.2)
  ∧ ∀ a b, a < n → b < n →
      mget st.1 a b
      = if decide ((Nat.min a b, Nat.max a b) ∈ st.2)
        then call_at coords (Nat.min a b) (Nat.max a b) else zero.

(** The categories of the facilities at the given positions. *)
Definition types_at (facilities : list facility) (l : list nat) : list ftype :=
  omap (fun j => type <$> facilities !! j) l.

(** The test of line 154 on the distance matrix. *)
Definition overlapping_at (d : list (list float)) (radius : Q) (i j : nat)
  : Prop :=
  j ≠ i ∧ float_leb (mget d i j) (Fin radius).

(** For an adjacency relation [B] on positions: the adjacent pairs
    [(i, j)], [i < j < n], counted row by row, and the adjacencies counted
    from every endpoint. *)
Definition upper_count (B : nat → nat → Prop) `{!∀ i j, Decision (B i j)}
    (n : nat) : nat :=
  sum_list ((fun i => length (filter (B i) (range (i + 1) n))) <$> range 0 n).

Definition degree_sum (B : nat → nat → Prop) `{!∀ i j, Decision (B i j)}
    (n : nat) : nat :=
  sum_list ((fun i => length (filter (fun j => j ≠ i ∧ B i j) (range 0 n)))
              <$> range 0 n).

(** The test of line 256 on the distance matrix, against the visited set
    of the start of the scan. *)
Definition joins (d : list (list float)) (visited : gset nat) (i j : nat)
  : Prop :=
  j ≠ i ∧ (j ∉ visited)
  ∧ float_leb (mget d i j) (Fin (SERVICE_RADIUS / 2)).

(** Lines 283-284: the RHCs and the FQHCs with more than 3 overlaps. *)
Definition redundant_of (t : ftype) (facilities : list facility) : list nat :=
  filter (fun i => type <$> facilities !! i = Some t
                   ∧ 3 < overlaps_at facilities i)
         (range 0 (length facilities)).

Definition redundant_rhcs (facilities : list facility) : nat :=
  length (redundant_of RHC facilities).

Definition redundant_fqhcs (facilities : list facility) : nat :=
  length (redundant_of FQHC facilities).

(** ** Loading the files *)

Section Loading.

(** [re.search('PSYCHIATRIC|MENTAL|SHRINERS|RANKEN', name, re.IGNORECASE)]:
    regular-expression matching is a parameter. *)
Variable name_excluded : string -> bool.

(** [frame[column]] raises [KeyError] unless the frame has the column. *)
Definition has_column (f : frame) (column : string) : bool :=
  bool_decide (column ∈ frame_columns f).

(** [Series.str.contains(pattern, case=False, na=False)] on one cell. *)
Definition contains_excluded (cell : option string) : bool :=
  match cell with
  | Some s => name_excluded s
  | None => false
  end.

(** The mask of line 44, negated, on one row. *)
Definition hospital_kept (r : row) : bool :=
  negb (contains_excluded (get_txt r "Facility Name" None)).

(** The mask of line 53 on one row. *)
Definition rhc_kept (r : row) : bool :=
  negb (isna (get_num r "latitude" NaN))
  && negb (isna (get_num r "longitude" NaN)).

(** [hospitals[~hospitals['Facility Name'].str.contains(...)]] *)
Definition clean_hospitals (f : frame) : result (list row) :=
  if has_column f "Facility Name" then
    Ok (filter (fun r => hospital_kept r) (frame_rows f))
  else Raise KeyError.

(** [rhcs[rhcs['latitude'].notna() & rhcs['longitude'].notna()]] *)
Definition clean_rhcs (f : frame) : result (list row) :=
  if has_column f "latitude" then
    if has_column f "longitude" then
      Ok (filter (fun r => rhc_kept r) (frame_rows f))
    else Raise KeyError
  else Raise KeyError.

(** Lines 40-46, 49-55 and 58-62: a missing file gives [pd.DataFrame()]. *)
Definition load_hospitals (file : option frame) : result (list row) :=
  match file with
  | Some f => clean_hospitals f
  | None => Ok []
  end.

Definition load_rhcs (file : option frame) : result (list row) :=
  match file with
  | Some f => clean_rhcs f
  | None => Ok []
  end.

Definition load_fqhcs (file : option frame) : list row :=
  match file with
  | Some f => frame_rows f
  | None => []
  end.

(** [analyze_service_redundancy()] as it is called: the three files are
    read and cleaned, then the analysis runs on the loaded frames. *)
Definition analyze_service_redundancy_from_files (files : data_files)
  : result outcome :=
  match load_hospitals (hospital_file files) with
  | Raise e => Raise e
  | Ok hospitals =>
      match load_rhcs (rhc_file files) with
      | Raise e => Raise e
      | Ok rhcs =>
          analyze_service_redundancy hospitals rhcs
            (load_fqhcs (fqhc_file files))
      end
  end.

End Loading.

(** ** Loops and ranges *)

Lemma foldl_invariant {A B : Type} (I : A → Prop) (f : A → B → A)
    (l : list B) (a : A) :
  I a → (∀ a' x, x ∈ l → I a' → I (f a' x)) → I (foldl f a l).
Proof.
  revert a. induction l as [|x l IH]; intros a Ha Hstep; simpl; [done|].
  apply IH.
  - apply Hstep; [left | done].
  - intros a' y Hy. apply Hstep. by right.
Qed.

Lemma elem_of_range (a b x : nat) : x ∈ range a b ↔ a ≤ x < b.
Proof. unfold range. rewrite elem_of_seq. lia. Qed.

Lemma range_snoc (n : nat) : range 0 (S n) = range 0 n ++ [n].
Proof. unfold range. rewrite !Nat.sub_0_r. by rewrite seq_S. Qed.

Lemma NoDup_range (a b : nat) : NoDup (range a b).
Proof. apply NoDup_seq. Qed.

(** ** The distance matrix *)

Lemma square_zeros (n : nat) : square n (zeros n n).
Proof.
  split; [apply length_replicate|].
  intros i r Hr. apply lookup_replicate in Hr as [-> _].
  apply length_replicate.
Qed.

Lemma mget_zeros (n a b : nat) : mget (zeros n n) a b = zero.
Proof.
  unfold mget, zeros.
  destruct (replicate n (replicate n zero) !! a) as [r|] eqn:Hr; [|done].
  apply lookup_replicate in Hr as [-> _]. simpl.
  destruct (replicate n zero !! b) as [x|] eqn:Hx; [|done].
  by apply lookup_replicate in Hx as [-> _].
Qed.

Lemma square_mset (n : nat) (d : list (list float)) (i j : nat) (v : float) :
  square n d → square n (mset d i j v).
Proof.
  intros [Hlen Hrows]. split.
  - unfold mset. by rewrite length_alter.
  - intros k r. unfold mset. destruct (decide (i = k)) as [->|Hne].
    + rewrite list_lookup_alter_eq.
      destruct (d !! k) as [r0|] eqn:Hk; simpl; [|done].
      intros [= <-]. rewrite length_insert. eauto.
    + rewrite list_lookup_alter_ne by done. eauto.
Qed.

Lemma mget_mset (n : nat) (d : list (list float)) (i j a b : nat) (v : float) :
  square n d → i < n → j < n →
  mget (mset d i j v) a b
  = if decide (a = i ∧ b = j) then v else mget d a b.
Proof.
  intros [Hlen Hrows] Hi Hj. unfold mget, mset.
  destruct (decide (i = a)) as [->|Hne].
  - rewrite list_lookup_alter_eq.
    destruct (d !! a) as [r|] eqn:Ha; simpl.
    + destruct (decide (j = b)) as [->|Hnb].
      * rewrite list_lookup_insert_eq by (erewrite Hrows; eauto).
        by rewrite decide_True.
      * rewrite list_lookup_insert_ne by done.
        rewrite decide_False; [done|]. intros [_ ?]. congruence.
    + apply lookup_ge_None in Ha. lia.
  - rewrite list_lookup_alter_ne by done.
    rewrite decide_False; [done|]. intros [? _]. congruence.
Qed.

Lemma matrix_inv_init (coords : list (float * float)) :
  matrix_inv coords (zeros (length coords) (length coords), []).
Proof.
  split; [apply square_zeros|]. split.
  - intros p Hp. by apply elem_of_nil in Hp.
  - intros a b _ _. cbn [fst snd]. rewrite mget_zeros.
    destruct (decide _) as [Hin|]; [|done]. by apply elem_of_nil in Hin.
Qed.

Lemma matrix_inv_step (coords : list (float * float)) (i j : nat)
    (st : list (list float) * list (nat * nat)) :
  i < j → j < length coords →
  matrix_inv coords st → matrix_inv coords (pair_step coords i st j).
Proof.
  intros Hij Hj (Hsq & Hord & Hget). unfold pair_step. fold (call_at coords i j).
  split; [|split]; simpl.
  - by do 2 apply square_mset.
  - intros p [Hp| ->%list_elem_of_singleton]%elem_of_app; [by apply Hord|done].
  - intros a b Ha Hb.
    rewrite (mget_mset (length coords)); [|by apply square_mset|lia|lia].
    rewrite (mget_mset (length coords)); [|done|lia|lia].
    rewrite Hget by done.
    destruct (decide (a = j ∧ b = i)) as [[-> ->]|Hji].
    + rewrite Nat.min_r, Nat.max_l by lia.
      rewrite decide_True; [done|]. apply elem_of_app. right. by left.
    + destruct (decide (a = i ∧ b = j)) as [[-> ->]|Hij'].
      * rewrite Nat.min_l, Nat.max_r by lia.
        rewrite decide_True; [done|]. apply elem_of_app. right. by left.
      * destruct (decide ((a `min` b, a `max` b) ∈ st.2)) as [Hin|Hnin].
        -- rewrite decide_True; [done|]. apply elem_of_app. by left.
        -- rewrite decide_False; [done|].
           intros [?|Heq%list_elem_of_singleton]%elem_of_app; [done|].
           injection Heq as Hmin Hmax. lia.
Qed.

Lemma matrix_inv_loop (coords : list (float * float)) :
  matrix_inv coords (distance_loop coords).
Proof.
  unfold distance_loop.
  apply foldl_invariant; [apply matrix_inv_init|].
  intros st i Hi%elem_of_range Hst.
  apply foldl_invariant; [done|].
  intros st' j Hj%elem_of_range Hst'.
  apply matrix_inv_step; [lia|lia|done].
Qed.

Lemma pair_loop_calls (coords : list (float * float)) (i : nat) (l : list nat)
    (st : list (list float) * list (nat * nat)) :
  (foldl (pair_step coords i) st l).2 = st.2 ++ ((fun j => (i, j)) <$> l).
Proof.
  revert st. induction l as [|j l IH]; intros st; simpl.
  - by rewrite app_nil_r.
  - rewrite IH. simpl. by rewrite <- app_assoc.
Qed.

Lemma outer_loop_calls (coords : list (float * float)) (n : nat)
    (l : list nat) (st : list (list float) * list (nat * nat)) :
  (foldl (fun st i => foldl (pair_step coords i) st (range (i + 1) n)) st l).2
  = st.2 ++ (i ← l; (fun j => (i, j)) <$> range (i + 1) n).
Proof.
  revert st. induction l as [|i l IH]; intros st; simpl.
  - by rewrite app_nil_r.
  - rewrite IH, pair_loop_calls. by rewrite <- app_assoc.
Qed.

Lemma distance_loop_calls (coords : list (float * float)) :
  (distance_loop coords).2 = unordered_pairs (length coords).
Proof. unfold distance_loop. by rewrite outer_loop_calls. Qed.

Lemma elem_of_unordered_pairs (n i j : nat) :
  (i, j) ∈ unordered_pairs n ↔ i < j < n.
Proof.
  unfold unordered_pairs. rewrite list_elem_of_bind. split.
  - intros (k & Hin & Hk%elem_of_range).
    apply list_elem_of_fmap in Hin as (j' & [= -> ->] & Hj%elem_of_range). lia.
  - intros Hij. exists i. split; [|apply elem_of_range; lia].
    apply list_elem_of_fmap. exists j. split; [done|]. apply elem_of_range. lia.
Qed.

Lemma NoDup_unordered_pairs (n : nat) : NoDup (unordered_pairs n).
Proof.
  unfold unordered_pairs. apply NoDup_bind.
  - intros i1 i2 p _ _ (j1 & -> & _)%list_elem_of_fmap
      (j2 & [= -> _] & _)%list_elem_of_fmap. done.
  - intros i _. apply NoDup_fmap_2; [|apply NoDup_range].
    intros j1 j2 [= ->]. done.
  - apply NoDup_range.
Qed.

Lemma coord_at_lookup (facilities : list facility) (i : nat) (f : facility) :
  facilities !! i = Some f → coord_at (coords_of facilities) i = (lat f, lon f).
Proof.
  intros Hf. unfold coord_at, coords_of. by rewrite list_lookup_fmap, Hf.
Qed.

Lemma length_coords_of (facilities : list facility) :
  length (coords_of facilities) = length facilities.
Proof. unfold coords_of. apply length_fmap. Qed.

(** Every entry of the matrix is the distance between the two facilities. *)
Lemma distances_entry (facilities : list facility) (a b : nat) :
  a < length facilities → b < length facilities →
  mget (distances facilities) a b = distance facilities a b.
Proof.
  intros Ha Hb. unfold distances.
  destruct (matrix_inv_loop (coords_of facilities)) as (_ & _ & Hget).
  rewrite !length_coords_of in Hget.
  rewrite Hget by done. rewrite distance_loop_calls, length_coords_of.
  unfold distance.
  destruct (lookup_lt_is_Some_2 facilities (a `min` b)) as [f Hf]; [lia|].
  destruct (lookup_lt_is_Some_2 facilities (a `max` b)) as [g Hg]; [lia|].
  rewrite Hf, Hg. unfold call_at.
  rewrite (coord_at_lookup _ _ _ Hf), (coord_at_lookup _ _ _ Hg). simpl.
  destruct (a =? b) eqn:Hab.
  - apply Nat.eqb_eq in Hab as ->.
    rewrite decide_False; [done|]. rewrite elem_of_unordered_pairs. lia.
  - apply Nat.eqb_neq in Hab.
    rewrite decide_True; [done|]. rewrite elem_of_unordered_pairs. lia.
Qed.

Lemma distance_sym (facilities : list facility) (a b : nat) :
  distance facilities a b = distance facilities b a.
Proof.
  unfold distance. rewrite (Nat.min_comm b a), (Nat.max_comm b a).
  by rewrite (Nat.eqb_sym b a).
Qed.

Lemma distance_diag (facilities : list facility) (a : nat) :
  distance facilities a a = zero.
Proof.
  unfold distance. rewrite Nat.eqb_refl.
  by destruct (facilities !! (a `min` a)), (facilities !! (a `max` a)).
Qed.

(** C4: for every ordered sequence of facilities the computed matrix is
    [N] by [N], symmetric, with a zero diagonal; the distance formula is
    called once for each unordered pair [(i, j)], [i < j], and for no other
    pair; and the result of that call is stored at both [(i, j)] and
    [(j, i)]. *)
Theorem distance_matrix_symmetric_zero_diagonal (facilities : list facility) :
  let n := length facilities in
  let d := distances facilities in
  square n d
  ∧ (∀ i j, i < n → j < n → mget d i j = mget d j i)
  ∧ (∀ i, i < n → mget d i i = zero)
  ∧ NoDup (distance_calls facilities)
  ∧ (∀ i j, (i, j) ∈ distance_calls facilities ↔ i < j < n)
  ∧ (∀ i j f g, facilities !! i = Some f → facilities !! j = Some g → i < j →
       mget d i j = facility_distance f g ∧ mget d j i = facility_distance f g).
Proof.
  intros n d. subst n d. split; [|split; [|split; [|split; [|split]]]].
  - destruct (matrix_inv_loop (coords_of facilities)) as (Hsq & _).
    by rewrite length_coords_of in Hsq.
  - intros i j Hi Hj. rewrite !distances_entry by done. apply distance_sym.
  - intros i Hi. rewrite distances_entry by done. apply distance_diag.
  - unfold distance_calls. rewrite distance_loop_calls.
    apply NoDup_unordered_pairs.
  - intros i j. unfold distance_calls. rewrite distance_loop_calls.
    by rewrite elem_of_unordered_pairs, length_coords_of.
  - intros i j f g Hf Hg Hij.
    pose proof (lookup_lt_Some _ _ _ Hf). pose proof (lookup_lt_Some _ _ _ Hg).
    rewrite !distances_entry by done. rewrite (distance_sym _ j i).
    unfold distance. rewrite Nat.min_l, Nat.max_r by lia. rewrite Hf, Hg.
    destruct (i =? j) eqn:Heq; [apply Nat.eqb_eq in Heq; lia|done].
Qed.

(** ** The overlap counter *)

Lemma filter_ext_in {A : Type} (P Q : A → Prop) `{!∀ x, Decision (P x)}
    `{!∀ x, Decision (Q x)} (l : list A) :
  (∀ x, x ∈ l → P x ↔ Q x) → filter P l = filter Q l.
Proof.
  induction l as [|x l IH]; intros Hext; [done|].
  rewrite !filter_cons.
  rewrite IH by (intros y Hy; apply Hext; by right).
  destruct (decide (P x)) as [HP|HP], (decide (Q x)) as [HQ|HQ];
    try done; exfalso; apply (Hext x (list_elem_of_here _ _)) in HP || apply HP;
    try done; by apply (Hext x (list_elem_of_here _ _)).
Qed.

Lemma overlap_loop (facilities : list facility) (d : list (list float))
    (radius : Q) (i : nat) (l : list nat) (st : nat * list ftype) :
  foldl (overlap_step facilities d radius i) st l
  = (st.1 + length (filter (overlapping_at d radius i) l),
     st.2 ++ types_at facilities (filter (overlapping_at d radius i) l)).
Proof.
  revert st. induction l as [|j l IH]; intros [cnt ov]; simpl.
  - by rewrite Nat.add_0_r, app_nil_r.
  - rewrite IH, filter_cons. unfold overlap_step.
    destruct (decide (overlapping_at d radius i j)) as [[Hne Hle]|Hno].
    + apply Is_true_true in Hle. rewrite Hle.
      replace (i =? j) with false by (symmetry; apply Nat.eqb_neq; congruence).
      cbn [negb andb fst snd length]. unfold types_at. cbn [omap list_omap].
      destruct (facilities !! j) as [f|]; cbn [fmap option_fmap option_map option_list];
        f_equal; try lia; by rewrite <- ?app_assoc.
    + destruct (i =? j) eqn:Hij; cbn [negb andb]; [done|].
      destruct (float_leb (mget d i j) (Fin radius)) eqn:Hle; [|done].
      exfalso. apply Hno. split; [apply Nat.eqb_neq in Hij; congruence|].
      by apply Is_true_true.
Qed.

Lemma overlapping_neighbours (radius : Q) (facilities : list facility)
    (i : nat) :
  i < length facilities →
  filter (overlapping_at (distances facilities) radius i)
         (range 0 (length facilities))
  = neighbours radius facilities i.
Proof.
  intros Hi. unfold neighbours. apply filter_ext_in.
  intros j Hj%elem_of_range. unfold overlapping_at.
  rewrite distances_entry by lia. done.
Qed.

Lemma overlap_row_neighbours (radius : Q) (facilities : list facility)
    (i : nat) :
  i < length facilities →
  overlap_row facilities (distances facilities) radius i
  = (length (neighbours radius facilities i),
     value_counts (types_at facilities (neighbours radius facilities i))).
Proof.
  intros Hi. unfold overlap_row. rewrite overlap_loop. simpl.
  rewrite overlapping_neighbours by done.
  destruct (neighbours radius facilities i) as [|j l]; done.
Qed.

Lemma overlaps_within_lookup (radius : Q) (facilities : list facility)
    (i : nat) :
  i < length facilities →
  overlaps_within radius facilities !! i
  = Some (length (neighbours radius facilities i)).
Proof.
  intros Hi. unfold overlaps_within. rewrite list_lookup_fmap.
  unfold range. rewrite lookup_seq_lt by lia.
  cbn [fmap option_fmap option_map Nat.add].
  by rewrite overlap_row_neighbours.
Qed.

Lemma overlaps_at_neighbours (facilities : list facility) (i : nat) :
  i < length facilities →
  overlaps_at facilities i = length (neighbours SERVICE_RADIUS facilities i).
Proof.
  intros Hi. unfold overlaps_at, overlaps.
  by rewrite overlaps_within_lookup.
Qed.

Lemma value_counts_lookup (l : list ftype) (t : ftype) :
  default 0 (value_counts l !! t) = length (filter (fun u => u = t) l).
Proof.
  induction l as [|u l IH]; simpl; [by rewrite lookup_empty|].
  rewrite filter_cons. destruct (decide (u = t)) as [->|Hne].
  - rewrite lookup_insert_eq. simpl. by rewrite IH.
  - by rewrite lookup_insert_ne.
Qed.

Lemma types_at_cons (facilities : list facility) (j : nat) (l : list nat) :
  types_at facilities (j :: l)
  = match facilities !! j with
    | Some f => type f :: types_at facilities l
    | None => types_at facilities l
    end.
Proof. unfold types_at. simpl. by destruct (facilities !! j). Qed.

Lemma types_at_count (facilities : list facility) (l : list nat) (t : ftype) :
  length (filter (fun u => u = t) (types_at facilities l))
  = length (filter (fun j => type <$> facilities !! j = Some t) l).
Proof.
  induction l as [|j l IH]; [done|].
  rewrite types_at_cons, (filter_cons _ j).
  destruct (facilities !! j) as [f|]; cbn [fmap option_fmap option_map].
  - rewrite filter_cons.
    destruct (decide (type f = t)) as [->|Hne].
    + rewrite decide_True by done. cbn [length]. by rewrite IH.
    + rewrite decide_False by congruence. done.
  - rewrite decide_False by done. done.
Qed.

Lemma elem_of_neighbours (radius : Q) (facilities : list facility) (i j : nat) :
  j ∈ neighbours radius facilities i
  ↔ j < length facilities ∧ j ≠ i
    ∧ float_leb (distance facilities i j) (Fin radius).
Proof.
  unfold neighbours. rewrite list_elem_of_filter, elem_of_range.
  split; [intros ((? & ?) & (_ & ?)); split; [lia|done]
        |intros (? & ? & ?); split; [done|lia]].
Qed.

(** C2: for every facility [i] the computed neighbour count is the number
    of facilities [j ≠ i] with [distance(i, j) <= 20], and the breakdown
    stored with it gives, for each category, the number of those neighbours
    of that category.  The threshold is inclusive: two facilities exactly 20
    miles apart count each other, and at any distance above 20 miles
    neither counts the other. *)
Theorem neighbour_count_within_radius (facilities : list facility) (i : nat) :
  i < length facilities →
  overlaps facilities !! i
  = Some (length (neighbours SERVICE_RADIUS facilities i))
  ∧ (∃ breakdown,
       overlap_types facilities !! i = Some breakdown
       ∧ ∀ t, default 0 (breakdown !! t)
              = length (filter
                          (fun j => type <$> facilities !! j = Some t)
                          (neighbours SERVICE_RADIUS facilities i)))
  ∧ (∀ j, j ∈ neighbours SERVICE_RADIUS facilities i
          ↔ j < length facilities ∧ j ≠ i
            ∧ float_leb (distance facilities i j) (Fin 20))
  ∧ (∀ j q, j < length facilities → j ≠ i →
       distance facilities i j = Fin q →
       ((q == 20)%Q →
          j ∈ neighbours SERVICE_RADIUS facilities i
          ∧ i ∈ neighbours SERVICE_RADIUS facilities j)
       ∧ ((20 < q)%Q →
          (j ∉ neighbours SERVICE_RADIUS facilities i)
          ∧ (i ∉ neighbours SERVICE_RADIUS facilities j))).
Proof.
  intros Hi. split; [|split; [|split]].
  - by apply overlaps_within_lookup.
  - exists (value_counts
              (types_at facilities (neighbours SERVICE_RADIUS facilities i))).
    split.
    + unfold overlap_types, overlap_types_within. rewrite list_lookup_fmap.
      unfold range. rewrite lookup_seq_lt by lia.
      cbn [fmap option_fmap option_map Nat.add].
      by rewrite overlap_row_neighbours.
    + intros t. by rewrite value_counts_lookup, types_at_count.
  - intros j. apply elem_of_neighbours.
  - intros j q Hj Hne Hd. rewrite !elem_of_neighbours.
    rewrite (distance_sym facilities j i), Hd. unfold SERVICE_RADIUS.
    cbn [float_leb]. split.
    + intros Hq.
      assert (Qle_bool q 20 = true) as ->
        by (apply Qle_bool_iff; rewrite Hq; apply Qle_refl).
      split; (split; [lia|split; [congruence|done]]).
    + intros Hq.
      assert (Qle_bool q 20 = false) as ->.
      { apply not_true_is_false. intros Hle%Qle_bool_iff.
        by apply Qlt_not_le in Hq. }
      split; intros (_ & _ & []).
Qed.

(** ** Counting each adjacency from both ends *)

Section DoubleCounting.

Context (B : nat → nat → Prop) `{!∀ i j, Decision (B i j)}.
Hypothesis B_sym : ∀ i j, B i j → B j i.

Lemma sum_list_cons (x : nat) (l : list nat) :
  sum_list (x :: l) = x + sum_list l.
Proof. done. Qed.

Lemma sum_list_fmap_add {A : Type} (g h : A → nat) (l : list A) :
  sum_list ((fun x => g x + h x) <$> l)
  = sum_list (g <$> l) + sum_list (h <$> l).
Proof.
  induction l as [|x l IH]; [done|].
  rewrite !fmap_cons, !sum_list_cons, IH. lia.
Qed.

Lemma sum_list_fmap_ext {A : Type} (g h : A → nat) (l : list A) :
  (∀ x, x ∈ l → g x = h x) → sum_list (g <$> l) = sum_list (h <$> l).
Proof.
  induction l as [|x l IH]; intros Hext; [done|].
  rewrite !fmap_cons, !sum_list_cons. rewrite Hext by left. rewrite IH; [done|].
  intros y Hy. apply Hext. by right.
Qed.

Lemma sum_list_indicator {A : Type} (P : A → Prop) `{!∀ x, Decision (P x)}
    (l : list A) :
  sum_list ((fun x => if decide (P x) then 1 else 0) <$> l)
  = length (filter P l).
Proof.
  induction l as [|x l IH]; [done|].
  rewrite fmap_cons, sum_list_cons, IH, filter_cons.
  by destruct (decide (P x)).
Qed.

Lemma length_filter_bind {A C : Type} (P : C → Prop) `{!∀ x, Decision (P x)}
    (f : A → list C) (l : list A) :
  length (filter P (l ≫= f))
  = sum_list ((fun x => length (filter P (f x))) <$> l).
Proof.
  induction l as [|x l IH]; [done|].
  rewrite bind_cons, fmap_cons, sum_list_cons.
  rewrite filter_app, length_app. f_equal. apply IH.
Qed.

Lemma length_filter_snoc {A : Type} (P : A → Prop) `{!∀ x, Decision (P x)}
    (l : list A) (x : A) :
  length (filter P (l ++ [x]))
  = length (filter P l) + (if decide (P x) then 1 else 0).
Proof.
  rewrite filter_app, length_app, filter_cons, filter_nil.
  by destruct (decide (P x)).
Qed.

Lemma range_succ_snoc (a n : nat) :
  a ≤ n → range a (S n) = range a n ++ [n].
Proof.
  intros Ha. unfold range. replace (S n - a) with (S (n - a)) by lia.
  rewrite seq_S. do 2 f_equal. lia.
Qed.

Lemma upper_count_succ (n : nat) :
  upper_count B (S n)
  = upper_count B n + length (filter (fun i => B i n) (range 0 n)).
Proof.
  unfold upper_count. rewrite range_snoc, fmap_app, sum_list_with_app.
  rewrite fmap_cons, fmap_nil, sum_list_cons.
  replace (range (n + 1) (S n)) with (@nil nat)
    by (unfold range; by replace (S n - (n + 1)) with 0 by lia).
  rewrite filter_nil. cbn [length sum_list_with].
  change (0 + 0) with 0. rewrite Nat.add_0_r.
  rewrite <- sum_list_indicator, <- sum_list_fmap_add.
  apply sum_list_fmap_ext. intros i Hi%elem_of_range.
  rewrite range_succ_snoc by lia. apply length_filter_snoc.
Qed.

Lemma degree_sum_succ (n : nat) :
  degree_sum B (S n)
  = degree_sum B n + 2 * length (filter (fun i => B i n) (range 0 n)).
Proof.
  unfold degree_sum. rewrite range_snoc at 1. rewrite fmap_app, sum_list_with_app.
  rewrite fmap_cons, fmap_nil, sum_list_cons.
  cbn [sum_list_with]. rewrite (Nat.add_0_r (length _)).
  rewrite (sum_list_fmap_ext _
    (fun i => length (filter (fun j => j ≠ i ∧ B i j) (range 0 n))
              + (if decide (B i n) then 1 else 0))).
  - rewrite sum_list_fmap_add, sum_list_indicator.
    rewrite range_snoc, length_filter_snoc.
    rewrite decide_False by (intros [? _]; done).
    rewrite (filter_ext_in (fun j => j ≠ n ∧ B n j) (fun i => B i n)).
    + lia.
    + intros j Hj%elem_of_range. split.
      * intros [_ ?]. by apply B_sym.
      * intros ?. split; [lia|by apply B_sym].
  - intros i Hi%elem_of_range. rewrite range_snoc, length_filter_snoc.
    f_equal. destruct (decide (B i n)) as [HB|HB].
    + rewrite decide_True; [done|]. split; [lia|done].
    + rewrite decide_False; [done|]. by intros [_ ?].
Qed.

Lemma degree_sum_twice (n : nat) : degree_sum B n = 2 * upper_count B n.
Proof.
  induction n as [|n IH]; [done|].
  rewrite degree_sum_succ, upper_count_succ, IH. lia.
Qed.

Lemma upper_count_pairs (n : nat) :
  upper_count B n
  = length (filter (fun p => B p.1 p.2) (unordered_pairs n)).
Proof.
  unfold upper_count, unordered_pairs. rewrite length_filter_bind.
  apply sum_list_fmap_ext. intros i _.
  generalize (range (i + 1) n) as l.
  induction l as [|j l IH]; [done|].
  rewrite fmap_cons, !filter_cons. cbn [fst snd].
  by destruct (decide (B i j)); cbn [length]; rewrite IH.
Qed.

End DoubleCounting.

(** ** The redundancy score *)

Lemma overlaps_sum_pairs (radius : Q) (facilities : list facility) :
  overlaps_sum radius facilities
  = 2 * length (pairs_within radius facilities).
Proof.
  unfold overlaps_sum, overlaps_within.
  rewrite (sum_list_fmap_ext _
    (fun i => length (neighbours radius facilities i))).
  - pose proof (degree_sum_twice
      (fun i j => float_leb (distance facilities i j) (Fin radius))) as Htwice.
    unfold degree_sum in Htwice. unfold neighbours.
    rewrite Htwice.
    + by rewrite upper_count_pairs.
    + intros i j. by rewrite (distance_sym facilities j i).
  - intros i Hi%elem_of_range. by rewrite overlap_row_neighbours by lia.
Qed.

(** C3: for any radius the sum of the neighbour counts is twice the number
    of unordered pairs within the radius, so the halved sum is that number;
    the saved redundancy score is (sum of the neighbour counts / 2) divided
    by the number of facilities, and it is 0 when no pair is within the
    radius.  The score exists when there is a facility: line 121 raises
    otherwise. *)
Theorem redundancy_score_counts_pairs (facilities : list facility) :
  (∀ radius,
     sum_list (overlaps_within radius facilities)
     = 2 * length (pairs_within radius facilities))
  ∧ (∀ radius,
       (inject_Z (Z.of_nat (sum_list (overlaps_within radius facilities))) / 2
        == inject_Z (Z.of_nat (length (pairs_within radius facilities))))%Q)
  ∧ (facilities ≠ [] →
     Results.redundancy_score (results facilities)
     = (inject_Z (Z.of_nat (sum_list (overlaps facilities))) / 2
        / inject_Z (Z.of_nat (length facilities)))%Q
     ∧ (∀ radius,
          pairs_within radius facilities = [] →
          (redundancy_score_within radius facilities == 0)%Q)
     ∧ (pairs_within SERVICE_RADIUS facilities = [] →
        (Results.redundancy_score (results facilities) == 0)%Q)).
Proof.
  assert (∀ radius, pairs_within radius facilities = [] →
            (redundancy_score_within radius facilities == 0)%Q) as Hzero.
  { intros radius Hnone. unfold redundancy_score_within.
    rewrite overlaps_sum_pairs, Hnone. cbn [length Nat.mul Z.of_nat inject_Z].
    unfold Qdiv. by rewrite !Qmult_0_l. }
  split; [exact (fun radius => overlaps_sum_pairs radius facilities)|].
  split.
  - intros radius. fold (overlaps_sum radius facilities).
    rewrite overlaps_sum_pairs, Nat2Z.inj_mul, inject_Z_mult.
    change (inject_Z (Z.of_nat 2)) with 2%Q. field.
  - intros _. split; [done|]. split; [done|apply Hzero].
Qed.

(** ** Ranking *)

Lemma insert_desc_perm (key : nat → nat) (x : nat) (l : list nat) :
  insert_desc key x l ≡ₚ x :: l.
Proof.
  induction l as [|y l IH]; simpl; [done|].
  destruct (key x <? key y); [|done].
  rewrite IH. apply Permutation_swap.
Qed.

Lemma sort_desc_perm (key : nat → nat) (l : list nat) :
  sort_desc key l ≡ₚ l.
Proof.
  induction l as [|x l IH]; simpl; [done|].
  by rewrite insert_desc_perm, IH.
Qed.

Lemma insert_desc_sorted (key : nat → nat) (x : nat) (l : list nat) :
  StronglySorted (rank_order key) l →
  (∀ y, y ∈ l → x < y) →
  StronglySorted (rank_order key) (insert_desc key x l).
Proof.
  induction l as [|y l IH]; intros Hs Hx; simpl.
  - by repeat constructor.
  - apply StronglySorted_inv in Hs as [Hs Hy].
    destruct (key x <? key y) eqn:Hk.
    + apply Nat.ltb_lt in Hk. constructor.
      * apply IH; [done|]. intros z Hz. apply Hx. by right.
      * rewrite insert_desc_perm. constructor; [by left|done].
    + apply Nat.ltb_ge in Hk. constructor; [by constructor|].
      assert (x < y) by (apply Hx; left).
      constructor; [unfold rank_order; lia|].
      rewrite Forall_forall in Hy |- *. intros z Hz.
      assert (x < z) by (apply Hx; by right).
      specialize (Hy z Hz). unfold rank_order in *. lia.
Qed.

Lemma sort_desc_sorted (key : nat → nat) (l : list nat) :
  StronglySorted lt l → StronglySorted (rank_order key) (sort_desc key l).
Proof.
  induction l as [|x l IH]; intros Hs; simpl; [constructor|].
  apply StronglySorted_inv in Hs as [Hs Hx].
  apply insert_desc_sorted; [by apply IH|].
  intros y Hy. rewrite sort_desc_perm in Hy.
  rewrite Forall_forall in Hx. by apply Hx.
Qed.

Lemma range_sorted (a b : nat) : StronglySorted lt (range a b).
Proof.
  unfold range. generalize (b - a) as k. intros k. revert a.
  induction k as [|k IH]; intros a; simpl; constructor; [apply IH|].
  apply Forall_forall. intros y Hy%elem_of_seq. lia.
Qed.

Lemma insert_values_perm (before : nat → nat → bool) (key : nat → nat)
    (x : nat) (l : list nat) :
  insert_values before key x l ≡ₚ x :: l.
Proof.
  induction l as [|y l IH]; simpl; [done|].
  destruct ((key x <? key y) || ((key x =? key y) && before y x)); [|done].
  rewrite IH. apply Permutation_swap.
Qed.

Lemma sort_values_perm (before : nat → nat → bool) (key : nat → nat)
    (l : list nat) :
  sort_values before key l ≡ₚ l.
Proof.
  induction l as [|x l IH]; simpl; [done|].
  by rewrite insert_values_perm, IH.
Qed.

Lemma insert_values_sorted (before : nat → nat → bool) (key : nat → nat)
    (x : nat) (l : list nat) :
  StronglySorted (fun i j => key j ≤ key i) l →
  StronglySorted (fun i j => key j ≤ key i) (insert_values before key x l).
Proof.
  induction l as [|y l IH]; intros Hs; simpl.
  - by repeat constructor.
  - apply StronglySorted_inv in Hs as [Hs Hy].
    destruct ((key x <? key y) || ((key x =? key y) && before y x)) eqn:Hk.
    + assert (key x ≤ key y) as Hle.
      { apply orb_true_iff in Hk as [Hk|Hk].
        - apply Nat.ltb_lt in Hk. lia.
        - apply andb_true_iff in Hk as [Hk _]. apply Nat.eqb_eq in Hk. lia. }
      constructor; [by apply IH|].
      rewrite insert_values_perm. by constructor.
    + assert (key y ≤ key x) as Hle.
      { apply orb_false_iff in Hk as [Hk _]. apply Nat.ltb_ge in Hk. lia. }
      constructor; [by constructor|].
      constructor; [done|].
      rewrite Forall_forall in Hy |- *. intros z Hz.
      specialize (Hy z Hz). cbn beta in Hy. lia.
Qed.

Lemma sort_values_sorted (before : nat → nat → bool) (key : nat → nat)
    (l : list nat) :
  StronglySorted (fun i j => key j ≤ key i) (sort_values before key l).
Proof.
  induction l as [|x l IH]; simpl; [constructor|].
  by apply insert_values_sorted.
Qed.

Lemma sorted_weaken {A} (R1 R2 : A → A → Prop) (l : list A) :
  (∀ x y, R1 x y → R2 x y) →
  StronglySorted R1 l → StronglySorted R2 l.
Proof.
  intros HR. induction 1 as [|x l Hs IH Hx]; constructor; [done|].
  eapply Forall_impl; [exact Hx|]. intros y. apply HR.
Qed.

(** Two descending sorts of the same rows list the same keys, however each
    orders equal keys. *)
Lemma sorted_keys_unique (key : nat → nat) (l1 l2 : list nat) :
  l1 ≡ₚ l2 →
  StronglySorted (fun i j => key j ≤ key i) l1 →
  StronglySorted (fun i j => key j ≤ key i) l2 →
  key <$> l1 = key <$> l2.
Proof.
  intros Hperm Hs1 Hs2.
  assert (AntiSymm (=) (fun a b : nat => b ≤ a)) as Hanti
    by (intros a b ? ?; lia).
  apply (StronglySorted_unique (fun a b : nat => b ≤ a)).
  - eapply StronglySorted_fmap; [|exact Hs1]. by intros i j.
  - eapply StronglySorted_fmap; [|exact Hs2]. by intros i j.
  - by rewrite Hperm.
Qed.

(** What [nlargest] returns on either path: the first [k] rows of a
    descending sort of the index. *)
Lemma nlargest_sorted_prefix (before : nat → nat → bool) (k : nat)
    (key : nat → nat) (index : list nat) :
  StronglySorted lt index →
  ∃ r, r ≡ₚ index
       ∧ StronglySorted (fun i j => key j ≤ key i) r
       ∧ nlargest before k key index = take k r.
Proof.
  intros Hindex. unfold nlargest. destruct (k <? length index).
  - exists (sort_desc key index).
    split; [apply sort_desc_perm|]. split; [|done].
    eapply sorted_weaken; [|by apply sort_desc_sorted].
    intros i j Hrank. unfold rank_order in Hrank. lia.
  - exists (sort_values before key index).
    split; [apply sort_values_perm|]. split; [|done].
    apply sort_values_sorted.
Qed.

Lemma top_redundant_sorted_prefix (facilities : list facility) :
  ∃ r, r ≡ₚ range 0 (length facilities)
       ∧ StronglySorted (more_overlaps_first facilities) r
       ∧ top_redundant facilities = take 15 r.
Proof. apply nlargest_sorted_prefix, range_sorted. Qed.

Lemma length_top_records (facilities : list facility) (l : list nat) :
  (∀ i, i ∈ l → i < length facilities) →
  length (omap (top_record facilities) l) = length l.
Proof.
  induction l as [|i l IH]; intros Hl; [done|].
  cbn [omap list_omap].
  destruct (lookup_lt_is_Some_2 facilities i) as [f Hf]; [apply Hl; left|].
  unfold top_record at 1. rewrite Hf. cbn [fmap option_fmap option_map length].
  f_equal. apply IH. intros j Hj. apply Hl. by right.
Qed.

(** C7, as the code has it: the ranking holds every facility once, the one
    with more overlaps first and the earlier row first among equal counts.
    With more than 15 facilities the printed highest-redundancy list is the
    first 15 entries of the ranking and the list of the saved report its
    first 10.  With at most 15 facilities the printed list holds every
    facility once, in an order the sort of equal counts decides.  In both
    cases the printed list shows the same overlap counts as the first 15 of
    the ranking, and the saved list is the first 10 entries of the printed
    one. *)
Theorem top_redundant_ranked (facilities : list facility) :
  ranking facilities ≡ₚ range 0 (length facilities)
  ∧ StronglySorted (ranked_before facilities) (ranking facilities)
  ∧ (15 < length facilities →
     top_redundant facilities = take 15 (ranking facilities)
     ∧ Results.top_redundant_facilities (results facilities)
       = omap (top_record facilities) (take 10 (ranking facilities)))
  ∧ (length facilities ≤ 15 →
     top_redundant facilities ≡ₚ range 0 (length facilities))
  ∧ overlaps_at facilities <$> top_redundant facilities
    = overlaps_at facilities <$> take 15 (ranking facilities)
  ∧ Results.top_redundant_facilities (results facilities)
    = omap (top_record facilities) (take 10 (top_redundant facilities))
  ∧ length (Results.top_redundant_facilities (results facilities))
    = Nat.min 10 (length facilities).
Proof.
  assert (ranking facilities ≡ₚ range 0 (length facilities)) as Hperm
    by apply sort_desc_perm.
  assert (StronglySorted (ranked_before facilities) (ranking facilities))
    as Hsorted by apply sort_desc_sorted, range_sorted.
  assert (length (range 0 (length facilities)) = length facilities) as Hlen
    by (unfold range; rewrite length_seq; lia).
  assert (Results.top_redundant_facilities (results facilities)
          = omap (top_record facilities) (take 10 (top_redundant facilities)))
    as Htop by done.
  split; [done|]. split; [done|]. split; [|split; [|split; [|split]]].
  - intros Hmany. rewrite Htop.
    assert (top_redundant facilities = take 15 (ranking facilities)) as ->.
    { unfold top_redundant, nlargest. rewrite Hlen.
      by rewrite (proj2 (Nat.ltb_lt _ _) Hmany). }
    split; [done|]. by rewrite take_take.
  - intros Hfew. unfold top_redundant, nlargest. rewrite Hlen.
    rewrite (proj2 (Nat.ltb_ge _ _) Hfew).
    rewrite take_ge; [apply sort_values_perm|].
    rewrite sort_values_perm, Hlen. lia.
  - unfold top_redundant, nlargest. rewrite Hlen.
    destruct (15 <? length facilities) eqn:Hpath; [done|].
    apply Nat.ltb_ge in Hpath.
    rewrite !take_ge.
    + apply sorted_keys_unique.
      * by rewrite sort_values_perm, Hperm.
      * apply sort_values_sorted.
      * eapply sorted_weaken; [|exact Hsorted].
        intros i j Hrank. unfold ranked_before, rank_order in Hrank. lia.
    + rewrite Hperm, Hlen. lia.
    + rewrite sort_values_perm, Hlen. lia.
  - done.
  - rewrite Htop.
    destruct (top_redundant_sorted_prefix facilities) as (r & Hr & _ & ->).
    rewrite take_take, length_top_records.
    + rewrite length_take, Hr, Hlen. lia.
    + intros i Hi%elem_of_take. destruct Hi as (k & Hi & _).
      apply list_elem_of_lookup_2 in Hi. rewrite Hr in Hi.
      apply elem_of_range in Hi. lia.
Qed.

(** ** Consolidation clustering *)

Lemma float_leb_Fin_proper (x : float) (a b : Q) :
  (a == b)%Q → float_leb x (Fin a) = float_leb x (Fin b).
Proof.
  intros Hab. destruct x as [q| | |]; cbn [float_leb]; try done.
  destruct (Qle_bool q a) eqn:Ha, (Qle_bool q b) eqn:Hb; try done.
  - apply Qle_bool_iff in Ha. rewrite Hab in Ha. apply Qle_bool_iff in Ha.
    congruence.
  - apply Qle_bool_iff in Hb. rewrite <- Hab in Hb. apply Qle_bool_iff in Hb.
    congruence.
Qed.

Lemma scan_step_joins (d : list (list float)) (i j : nat)
    (cluster : list nat) (visited : gset nat) :
  scan_step d i (cluster, visited) j
  = if decide (joins d visited i j)
    then (cluster ++ [j], {[j]} ∪ visited) else (cluster, visited).
Proof.
  unfold scan_step. cbn [fst snd].
  destruct (decide (joins d visited i j)) as [(Hne & Hnv & Hle)|Hno].
  - apply Nat.eqb_neq in Hne. rewrite Hne.
    rewrite (bool_decide_eq_false_2 (j ∈ visited)) by done.
    apply Is_true_true in Hle. by rewrite Hle.
  - destruct (negb (j =? i) && negb (bool_decide (j ∈ visited))
              && float_leb (mget d i j) (Fin (SERVICE_RADIUS / 2))) eqn:Hb;
      [|done].
    exfalso.
    apply andb_prop in Hb as [Hb Hle]. apply andb_prop in Hb as [Hne Hnv].
    apply Hno. split; [|split].
    + apply negb_true_iff, Nat.eqb_neq in Hne. done.
    + apply negb_true_iff, bool_decide_eq_false in Hnv. done.
    + by apply Is_true_true.
Qed.

Lemma scan_loop (d : list (list float)) (i : nat) (l : list nat)
    (st : list nat * gset nat) :
  NoDup l →
  foldl (scan_step d i) st l
  = (st.1 ++ filter (joins d st.2 i) l,
     list_to_set (filter (joins d st.2 i) l) ∪ st.2).
Proof.
  revert st. induction l as [|j l IH]; intros [cluster visited] Hnd.
  - cbn [foldl filter list_filter fst snd list_to_set].
    rewrite app_nil_r. f_equal. by rewrite (left_id_L ∅ (∪)).
  - apply NoDup_cons in Hnd as [Hj Hnd].
    cbn [foldl]. rewrite IH by done. rewrite scan_step_joins, filter_cons.
    cbn [fst snd].
    destruct (decide (joins d visited i j)) as [Hyes|Hno]; [|done].
    cbn [fst snd].
    rewrite (filter_ext_in (joins d ({[j]} ∪ visited) i) (joins d visited i)).
    + rewrite <- app_assoc. f_equal. cbn [list_to_set].
      by rewrite (assoc_L (∪)), (comm_L (∪) _ {[j]}).
    + intros k Hk. unfold joins.
      rewrite not_elem_of_union, not_elem_of_singleton.
      assert (k ≠ j) by (by intros ->).
      split; [intros (? & (_ & ?) & ?)|intros (? & ? & ?)]; done.
Qed.

Lemma joins_cluster_around (facilities : list facility) (visited : gset nat)
    (i : nat) :
  i < length facilities → i ∉ visited →
  i :: filter (joins (distances facilities) ({[i]} ∪ visited) i)
              (range 0 (length facilities))
  = cluster_around facilities visited i.
Proof.
  intros Hi Hnv. unfold cluster_around. f_equal.
  apply filter_ext_in. intros j Hj%elem_of_range. unfold joins.
  rewrite distances_entry by lia.
  rewrite (float_leb_Fin_proper _ (SERVICE_RADIUS / 2) 10) by done.
  rewrite not_elem_of_union, not_elem_of_singleton.
  split; [intros (? & (_ & ?) & ?)|intros (? & ? & ?)]; done.
Qed.

Lemma seed_step_cluster (facilities : list facility) (i : nat)
    (opportunities : list (list nat)) (visited : gset nat) :
  i < length facilities → i ∉ visited →
  seed_step (distances facilities) (length facilities)
            (opportunities, visited) i
  = (opportunities
       ++ (if decide (3 ≤ length (cluster_around facilities visited i))
           then [cluster_around facilities visited i] else []),
     list_to_set (cluster_around facilities visited i) ∪ visited).
Proof.
  intros Hi Hnv. unfold seed_step. cbn [fst snd].
  rewrite (bool_decide_eq_false_2 (i ∈ visited)) by done.
  rewrite scan_loop by apply NoDup_range. cbn [fst snd app].
  rewrite <- (joins_cluster_around facilities visited i) by done.
  generalize (filter (joins (distances facilities) ({[i]} ∪ visited) i)
                     (range 0 (length facilities))) as l.
  intros l. f_equal.
  - destruct (decide (3 ≤ length (i :: l))) as [Hlen|Hlen].
    + by replace (2 <? length (i :: l)) with true
        by (symmetry; apply Nat.ltb_lt; lia).
    + replace (2 <? length (i :: l)) with false
        by (symmetry; apply Nat.ltb_ge; lia).
      by rewrite app_nil_r.
  - cbn [list_to_set]. by rewrite (assoc_L (∪)), (comm_L (∪) _ {[i]}).
Qed.

Lemma seed_loop (facilities : list facility) (seeds : list nat)
    (opportunities : list (list nat)) (visited : gset nat) :
  (∀ i, i ∈ seeds → i < length facilities) →
  (foldl (seed_step (distances facilities) (length facilities))
         (opportunities, visited) seeds).1
  = opportunities ++ clusters_from_seeds facilities seeds visited.
Proof.
  revert opportunities visited.
  induction seeds as [|i seeds IH]; intros opportunities visited Hseeds.
  - cbn [foldl fst clusters_from_seeds]. by rewrite app_nil_r.
  - assert (∀ j, j ∈ seeds → j < length facilities) as Hrest
      by (intros j Hj; apply Hseeds; by right).
    cbn [foldl clusters_from_seeds].
    destruct (decide (i ∈ visited)) as [Hv|Hv].
    + unfold seed_step at 2. cbn [snd].
      rewrite (bool_decide_eq_true_2 (i ∈ visited)) by done. by apply IH.
    + rewrite seed_step_cluster by (done || apply Hseeds; left).
      rewrite IH by done. by rewrite <- app_assoc.
Qed.

Lemma elem_of_cluster_around (facilities : list facility)
    (visited : gset nat) (i x : nat) :
  x ∈ cluster_around facilities visited i →
  x = i ∨ (x ≠ i ∧ x ∉ visited).
Proof.
  unfold cluster_around. rewrite elem_of_cons, list_elem_of_filter.
  intros [->|[(? & ? & _) _]]; [by left|by right].
Qed.

Lemma NoDup_cluster_around (facilities : list facility) (visited : gset nat)
    (i : nat) :
  NoDup (cluster_around facilities visited i).
Proof.
  unfold cluster_around. apply NoDup_cons. split.
  - rewrite list_elem_of_filter. by intros [[? _] _].
  - apply NoDup_filter, NoDup_range.
Qed.

(** Clusters grown from any seeds share no member, and hold no facility
    that was visited before. *)
Lemma clusters_from_seeds_disjoint (facilities : list facility)
    (seeds : list nat) (visited : gset nat) :
  NoDup (concat (clusters_from_seeds facilities seeds visited))
  ∧ ∀ x, x ∈ concat (clusters_from_seeds facilities seeds visited) →
         x ∉ visited.
Proof.
  revert visited. induction seeds as [|i seeds IH]; intros visited.
  - cbn [clusters_from_seeds concat]. split; [constructor|].
    intros x Hx. by apply elem_of_nil in Hx.
  - cbn [clusters_from_seeds].
    destruct (decide (i ∈ visited)) as [Hv|Hv]; [apply IH|].
    destruct (IH (list_to_set (cluster_around facilities visited i)
                  ∪ visited)) as [Hnd Hfresh].
    assert (∀ x, x ∈ concat (clusters_from_seeds facilities seeds
                   (list_to_set (cluster_around facilities visited i)
                    ∪ visited)) →
                 (x ∉ cluster_around facilities visited i) ∧ (x ∉ visited))
      as Hfresh'.
    { intros x Hx. specialize (Hfresh x Hx).
      rewrite not_elem_of_union, elem_of_list_to_set in Hfresh. done. }
    destruct (decide (3 ≤ length (cluster_around facilities visited i))).
    + cbn [app concat]. split.
      * apply NoDup_app. split; [apply NoDup_cluster_around|].
        split; [|done]. intros x Hx Hx'. by destruct (Hfresh' x Hx').
      * intros x [Hx|Hx]%elem_of_app; [|by destruct (Hfresh' x Hx)].
        apply elem_of_cluster_around in Hx as [->|[_ ?]]; done.
    + cbn [app]. split; [done|]. intros x Hx. by destruct (Hfresh' x Hx).
Qed.

Lemma clusters_from_seeds_size (facilities : list facility)
    (seeds : list nat) (visited : gset nat) :
  Forall (fun cluster => 3 ≤ length cluster)
         (clusters_from_seeds facilities seeds visited).
Proof.
  revert visited. induction seeds as [|i seeds IH]; intros visited.
  - constructor.
  - cbn [clusters_from_seeds].
    destruct (decide (i ∈ visited)); [apply IH|].
    destruct (decide (3 ≤ length (cluster_around facilities visited i)));
      cbn [app]; [constructor; [done|]|]; apply IH.
Qed.

Lemma seeds_below_length (facilities : list facility) (i : nat) :
  i ∈ high_overlap facilities → i < length facilities.
Proof.
  unfold high_overlap. rewrite list_elem_of_filter, elem_of_range. lia.
Qed.

Lemma consolidation_from_seeds (facilities : list facility) :
  consolidation_opportunities facilities
  = clusters_from_seeds facilities (seeds_in_input_order facilities) ∅.
Proof.
  unfold consolidation_opportunities.
  rewrite seed_loop by apply seeds_below_length. done.
Qed.

Lemma NoDup_concat_lookup {A : Type} (ls : list (list A)) (k1 k2 : nat)
    (l1 l2 : list A) (x : A) :
  NoDup (concat ls) → ls !! k1 = Some l1 → ls !! k2 = Some l2 →
  x ∈ l1 → x ∈ l2 → k1 = k2.
Proof.
  revert k1 k2. induction ls as [|l ls IH]; intros k1 k2 Hnd H1 H2 Hx1 Hx2.
  - by rewrite lookup_nil in H1.
  - cbn [concat] in Hnd. apply NoDup_app in Hnd as (_ & Hdisj & Hnd).
    assert (∀ k l', ls !! k = Some l' → x ∈ l' → x ∈ concat ls) as Hin.
    { intros k l' Hk Hx. apply list_elem_of_In, in_concat. exists l'.
      split; apply list_elem_of_In; [|done].
      by apply list_elem_of_lookup_2 in Hk. }
    destruct k1 as [|k1], k2 as [|k2]; cbn [lookup list_lookup] in H1, H2.
    + done.
    + injection H1 as ->. exfalso. apply (Hdisj x Hx1). by eapply Hin.
    + injection H2 as ->. exfalso. apply (Hdisj x Hx2). by eapply Hin.
    + f_equal. by eapply IH.
Qed.

(** C1, as the code has it: the seeds are the facilities with at least 5
    neighbours within 20 miles, taken in the order of the input rows; a seed
    not yet visited starts a cluster and is marked visited; every other
    facility not yet visited and within 10 miles of the seed joins the
    cluster, whatever its own neighbour count, and is marked visited;
    clusters of fewer than 3 members are dropped. *)
Theorem consolidation_follows_input_order (facilities : list facility) :
  consolidation_opportunities facilities
  = clusters_from_seeds facilities (seeds_in_input_order facilities) ∅
  ∧ seeds_in_input_order facilities
    = filter (fun i => 5 ≤ length (neighbours SERVICE_RADIUS facilities i))
             (range 0 (length facilities))
  ∧ (SERVICE_RADIUS == 20)%Q
  ∧ (SERVICE_RADIUS / 2 == 10)%Q.
Proof.
  split; [apply consolidation_from_seeds|]. split; [|done].
  unfold seeds_in_input_order. apply filter_ext_in.
  intros i Hi%elem_of_range. by rewrite overlaps_at_neighbours by lia.
Qed.

(** C5: whatever the facilities, no facility is a member of two reported
    clusters (nor twice of one), and every reported cluster has at least 3
    members. *)
Theorem clusters_disjoint_with_three_members (facilities : list facility) :
  let clusters := consolidation_opportunities facilities in
  NoDup (concat clusters)
  ∧ (∀ k1 k2 c1 c2 x,
       clusters !! k1 = Some c1 → clusters !! k2 = Some c2 →
       x ∈ c1 → x ∈ c2 → k1 = k2)
  ∧ Forall (fun cluster => 3 ≤ length cluster) clusters
  ∧ Forall (fun cluster => NoDup cluster) clusters.
Proof.
  intros clusters. subst clusters. rewrite consolidation_from_seeds.
  destruct (clusters_from_seeds_disjoint facilities
              (seeds_in_input_order facilities) ∅) as [Hnd _].
  split; [done|]. split; [|split].
  - intros k1 k2 c1 c2 x. by apply NoDup_concat_lookup.
  - apply clusters_from_seeds_size.
  - revert Hnd.
    generalize (clusters_from_seeds facilities
                  (seeds_in_input_order facilities) ∅) as ls.
    induction ls as [|l ls IH]; intros Hnd; [constructor|].
    cbn [concat] in Hnd. apply NoDup_app in Hnd as (Hl & _ & Hls).
    constructor; [done|by apply IH].
Qed.

(** ** The dominant city *)

Lemma string_leb_trans (s1 s2 s3 : string) :
  String.leb s1 s2 = true → String.leb s2 s3 = true →
  String.leb s1 s3 = true.
Proof.
  unfold String.leb. revert s2 s3.
  induction s1 as [|a1 s1 IH]; intros [|a2 s2] [|a3 s3];
    cbn [String.compare]; try done.
  unfold Ascii.compare.
  destruct (N.compare_spec (N_of_ascii a1) (N_of_ascii a2)) as [H12|H12|H12],
           (N.compare_spec (N_of_ascii a2) (N_of_ascii a3)) as [H23|H23|H23],
           (N.compare_spec (N_of_ascii a1) (N_of_ascii a3)) as [H13|H13|H13];
    try done; try lia.
  apply IH.
Qed.

Lemma string_leb_refl (s : string) : String.leb s s = true.
Proof. by destruct (String.leb_total s s). Qed.

Lemma insert_sorted_perm (s : string) (l : list string) :
  insert_sorted s l ≡ₚ s :: l.
Proof.
  induction l as [|t l IH]; cbn [insert_sorted]; [done|].
  destruct (String.leb s t); [done|].
  rewrite IH. apply Permutation_swap.
Qed.

Lemma sort_strings_perm (l : list string) : sort_strings l ≡ₚ l.
Proof.
  induction l as [|s l IH]; cbn [sort_strings foldr]; [done|].
  fold (sort_strings l). by rewrite insert_sorted_perm, IH.
Qed.

Lemma insert_sorted_sorted (s : string) (l : list string) :
  StronglySorted (fun a b => String.leb a b = true) l →
  StronglySorted (fun a b => String.leb a b = true) (insert_sorted s l).
Proof.
  induction l as [|t l IH]; intros Hs; cbn [insert_sorted].
  - by repeat constructor.
  - apply StronglySorted_inv in Hs as [Hs Ht].
    destruct (String.leb s t) eqn:Hst.
    + constructor; [by constructor|]. constructor; [done|].
      rewrite Forall_forall in Ht |- *. intros u Hu.
      eapply string_leb_trans; [done|by apply Ht].
    + constructor; [by apply IH|].
      rewrite insert_sorted_perm. constructor; [|done].
      by destruct (String.leb_total s t) as [Hle|Hle]; [congruence|].
Qed.

Lemma sort_strings_sorted (l : list string) :
  StronglySorted (fun a b => String.leb a b = true) (sort_strings l).
Proof.
  induction l as [|s l IH]; cbn [sort_strings foldr]; [constructor|].
  by apply insert_sorted_sorted.
Qed.

(** The first string of a sorted column is below every string of it. *)
Lemma sort_strings_head (l : list string) (c : string) (rest : list string) :
  sort_strings l = c :: rest → ∀ s, s ∈ l → String.leb c s = true.
Proof.
  intros Hsort s Hs. rewrite <- sort_strings_perm, Hsort in Hs.
  pose proof (sort_strings_sorted l) as Hsorted. rewrite Hsort in Hsorted.
  apply StronglySorted_inv in Hsorted as [_ Hc].
  apply elem_of_cons in Hs as [->|Hs]; [apply string_leb_refl|].
  rewrite Forall_forall in Hc. by apply Hc.
Qed.

Lemma occurrences_absent (vals : list string) (s : string) :
  s ∉ vals → occurrences s vals = 0.
Proof.
  unfold occurrences. induction vals as [|t vals IH]; intros Hs; [done|].
  apply not_elem_of_cons in Hs as [Hne Hs].
  rewrite filter_cons, decide_False by congruence. by apply IH.
Qed.

Lemma occurrences_le_top (vals : list string) (s : string) :
  occurrences s vals
  ≤ max_list ((fun t => occurrences t vals) <$> vals).
Proof.
  destruct (decide (s ∈ vals)) as [Hin|Hnin].
  - apply max_list_elem_of_le. apply list_elem_of_fmap. by exists s.
  - rewrite occurrences_absent by done. lia.
Qed.

Lemma elem_of_mode (col : list (option string)) (s : string) :
  s ∈ mode col
  ↔ s ∈ omap id col
    ∧ occurrences s (omap id col)
      = max_list ((fun t => occurrences t (omap id col)) <$> omap id col).
Proof.
  unfold mode. rewrite sort_strings_perm, elem_of_remove_dups.
  rewrite list_elem_of_filter. apply and_comm.
Qed.

Lemma mode_nil (col : list (option string)) :
  omap id col = [] → mode col = [].
Proof. intros Hnil. unfold mode. by rewrite Hnil. Qed.

Lemma mode_nonempty (col : list (option string)) :
  omap id col ≠ [] → mode col ≠ [].
Proof.
  intros Hne Hmode.
  assert ((fun t => occurrences t (omap id col)) <$> omap id col ≠ [])
    as Hne' by (by destruct (omap id col)).
  apply max_list_elem_of, list_elem_of_fmap in Hne' as (s & Htop & Hs).
  assert (s ∈ mode col) as Hin by (by apply elem_of_mode).
  rewrite Hmode in Hin. by apply elem_of_nil in Hin.
Qed.

(** C6, as the code has it: the dominant city of a cluster is a most
    frequent city label among the members that have one, the one that sorts
    first among the most frequent labels; it is "Multiple" when no member
    has a label.  The run computes it for the first five clusters. *)
Theorem dominant_city_is_first_sorted_mode (facilities : list facility)
    (cluster : list nat) :
  let labels := omap id (cluster_cities facilities cluster) in
  let dominant := dominant_city facilities cluster in
  (labels = [] → dominant = "Multiple")
  ∧ (labels ≠ [] →
       dominant ∈ labels
       ∧ (∀ s, occurrences s labels ≤ occurrences dominant labels)
       ∧ (∀ s, s ∈ labels →
               occurrences s labels = occurrences dominant labels →
               String.leb dominant s = true))
  ∧ (fun summary => summary.1.1) <$> cluster_summaries facilities
    = dominant_city facilities
        <$> take 5 (consolidation_opportunities facilities).
Proof.
  intros labels dominant. subst labels dominant. split; [|split].
  - intros Hnil. unfold dominant_city. by rewrite mode_nil.
  - intros Hne. unfold dominant_city.
    destruct (mode (cluster_cities facilities cluster)) as [|c rest] eqn:Hmode;
      [by apply mode_nonempty in Hne|].
    assert (c ∈ mode (cluster_cities facilities cluster)) as Hc
      by (rewrite Hmode; left).
    apply elem_of_mode in Hc as [Hc Htop].
    split; [done|]. split.
    + intros s. rewrite Htop. apply occurrences_le_top.
    + intros s Hs Hocc. unfold mode in Hmode.
      eapply sort_strings_head; [exact Hmode|].
      rewrite elem_of_remove_dups, list_elem_of_filter.
      split; [congruence|done].
  - unfold cluster_summaries. rewrite <- list_fmap_compose. done.
Qed.

(** ** The inclusion filter *)

Lemma entry_of_zero (t : ftype) (r : row) :
  float_eqb (row_lat t r) zero = true ∨ float_eqb (row_lon t r) zero = true →
  entry_of t r = None.
Proof.
  intros Hzero.
  destruct t; cbn [entry_of row_lat row_lon] in *;
    unfold hospital_entry, rhc_entry, fqhc_entry, float_neb;
    destruct Hzero as [-> | ->]; cbn [negb andb]; try done;
    by rewrite ?andb_false_r.
Qed.

Lemma omap_drop {A B : Type} (f : A → option B) (before after : list A)
    (x : A) :
  f x = None → omap f (before ++ x :: after) = omap f (before ++ after).
Proof. intros Hx. rewrite !omap_app. cbn [omap list_omap]. by rewrite Hx. Qed.

(** C10: a row whose latitude is 0 or whose longitude is 0 yields no
    facility, in each of the three categories, and the facility list is the
    one the frames give without that row; the filter asks each coordinate
    to be non-zero, which also drops rows away from (0, 0): a row on the
    equator at longitude -92 is dropped, and so is a row on the prime
    meridian at latitude 38. *)
Theorem zero_coordinate_rows_dropped (t : ftype) (r : row) :
  float_eqb (row_lat t r) zero = true ∨ float_eqb (row_lon t r) zero = true →
  entry_of t r = None
  ∧ (t = Hospital → ∀ before after rhcs fqhcs,
       prepare_facilities (before ++ r :: after) rhcs fqhcs
       = prepare_facilities (before ++ after) rhcs fqhcs)
  ∧ (t = RHC → ∀ hospitals before after fqhcs,
       prepare_facilities hospitals (before ++ r :: after) fqhcs
       = prepare_facilities hospitals (before ++ after) fqhcs)
  ∧ (t = FQHC → ∀ hospitals rhcs before after,
       prepare_facilities hospitals rhcs (before ++ r :: after)
       = prepare_facilities hospitals rhcs (before ++ after))
  ∧ (∃ r', row_lat t r' = zero ∧ row_lon t r' = Fin (-92)
           ∧ entry_of t r' = None)
  ∧ (∃ r', row_lat t r' = Fin 38 ∧ row_lon t r' = zero
           ∧ entry_of t r' = None).
Proof.
  intros Hzero. pose proof (entry_of_zero t r Hzero) as Hnone.
  split; [done|]. split; [|split; [|split; [|split]]].
  - intros -> before after rhcs fqhcs. unfold prepare_facilities.
    by rewrite (omap_drop hospital_entry).
  - intros -> hospitals before after fqhcs. unfold prepare_facilities.
    by rewrite (omap_drop rhc_entry).
  - intros -> hospitals rhcs before after. unfold prepare_facilities.
    by rewrite (omap_drop fqhc_entry).
  - destruct t.
    + by exists (located_row "latitude" "longitude" zero (Fin (-92))).
    + by exists (located_row "Latitude" "Longitude" zero (Fin (-92))).
    + by exists (located_row "Latitude" "Longitude" zero (Fin (-92))).
  - destruct t.
    + by exists (located_row "latitude" "longitude" (Fin 38) zero).
    + by exists (located_row "Latitude" "Longitude" (Fin 38) zero).
    + by exists (located_row "Latitude" "Longitude" (Fin 38) zero).
Qed.

(** C8, at the failing input: a hospital row and an FQHC row with a NaN
    latitude both pass the filter of their loop and enter the facility list
    with that latitude, while the RHC loop drops the same row; the distance
    to the next facility is then computed from the NaN coordinate.  Rows at
    (0, 0) are dropped by all three loops. *)
Theorem nan_coordinates_enter_the_analysis :
  let hospital_row := located_row "latitude" "longitude" NaN (Fin (-92)) in
  let clinic_row := located_row "Latitude" "Longitude" NaN (Fin (-92)) in
  let good_row := located_row "latitude" "longitude" (Fin 38) (Fin (-92)) in
  (lat <$> hospital_entry hospital_row) = Some NaN
  ∧ (lat <$> fqhc_entry clinic_row) = Some NaN
  ∧ rhc_entry clinic_row = None
  ∧ (lat <$> prepare_facilities [hospital_row; good_row] [] [])
    = [NaN; Fin 38]
  ∧ distance_calls (prepare_facilities [hospital_row; good_row] [] [])
    = [(0, 1)]
  ∧ mget (distances (prepare_facilities [hospital_row; good_row] [] [])) 0 1
    = haversine_distance NaN (Fin (-92)) (Fin 38) (Fin (-92))
  ∧ (∀ t, entry_of t (located_row "Latitude" "Longitude" zero zero) = None)
  ∧ (∀ t, entry_of t (located_row "latitude" "longitude" zero zero) = None).
Proof.
  cbv zeta. repeat split; try done.
  - by intros [].
  - by intros [].
Qed.

(** C9, at the failing input: with no facility the run raises [KeyError]
    at line 121, before any score or cluster list exists; with exactly one
    facility the neighbour count is 0, the score is 0 and there is no
    cluster. *)
Theorem no_facility_raises_key_error :
  analyze_service_redundancy [] [] [] = Raise KeyError
  ∧ (∀ hospitals rhcs fqhcs,
       prepare_facilities hospitals rhcs fqhcs = [] →
       analyze_service_redundancy hospitals rhcs fqhcs = Raise KeyError)
  ∧ ∀ f, overlaps [f] = [0]
         ∧ consolidation_opportunities [f] = []
         ∧ redundancy_score [f] = (0 / 2 / 1)%Q.
Proof.
  split; [done|]. split.
  - intros hospitals rhcs fqhcs Hnone. unfold analyze_service_redundancy.
    by rewrite Hnone.
  - intros f. done.
Qed.

(** ** Further properties of the analysis *)

Lemma length_range (a b : nat) : length (range a b) = b - a.
Proof. unfold range. apply length_seq. Qed.

Lemma length_neighbours_lt (radius : Q) (facilities : list facility)
    (i : nat) :
  i < length facilities →
  length (neighbours radius facilities i) < length facilities.
Proof.
  intros Hi. unfold neighbours.
  pose proof (length_range 0 (length facilities)) as Hlen.
  rewrite Nat.sub_0_r in Hlen. rewrite <- Hlen at 2.
  apply (length_filter_lt _ _ i).
  - apply elem_of_range. lia.
  - by intros [? _].
Qed.

Lemma length_overlaps (facilities : list facility) :
  length (overlaps facilities) = length facilities.
Proof.
  unfold overlaps, overlaps_within. rewrite length_fmap, length_range. lia.
Qed.

Lemma overlaps_at_lt (facilities : list facility) (i : nat) :
  i < length facilities → overlaps_at facilities i < length facilities.
Proof.
  intros Hi. rewrite overlaps_at_neighbours by done.
  by apply length_neighbours_lt.
Qed.

Lemma overlaps_all_lt (facilities : list facility) :
  Forall (fun count => count < length facilities) (overlaps facilities).
Proof.
  apply Forall_lookup. intros i c Hc.
  pose proof (lookup_lt_Some _ _ _ Hc) as Hi. rewrite length_overlaps in Hi.
  pose proof (overlaps_at_lt facilities i Hi) as Hlt.
  unfold overlaps_at in Hlt. by rewrite Hc in Hlt.
Qed.

Lemma sum_overlaps_le (facilities : list facility) :
  sum_list (overlaps facilities)
  ≤ length facilities * (length facilities - 1).
Proof.
  rewrite <- (length_overlaps facilities) at 1.
  pose proof (overlaps_all_lt facilities) as Hall. revert Hall.
  generalize (length facilities) (overlaps facilities).
  intros n l. induction l as [|c l IH]; intros Hall; [done|].
  apply Forall_cons in Hall as [Hc Hall].
  rewrite sum_list_cons. cbn [length]. specialize (IH Hall). lia.
Qed.

(** X1: the column of neighbour counts has one entry for each facility, and
    every count is below the number of facilities: a facility has at most
    N - 1 neighbours, and the counts add up to at most N (N - 1). *)
Theorem overlaps_below_facility_count (facilities : list facility) :
  length (overlaps facilities) = length facilities
  ∧ Forall (fun count => count < length facilities) (overlaps facilities)
  ∧ sum_list (overlaps facilities)
    ≤ length facilities * (length facilities - 1).
Proof.
  split; [apply length_overlaps|].
  split; [apply overlaps_all_lt|apply sum_overlaps_le].
Qed.

Lemma length_types_at (facilities : list facility) (l : list nat) :
  (∀ j, j ∈ l → j < length facilities) →
  length (types_at facilities l) = length l.
Proof.
  induction l as [|j l IH]; intros Hl; [done|].
  rewrite types_at_cons.
  destruct (lookup_lt_is_Some_2 facilities j) as [f Hf]; [apply Hl; left|].
  rewrite Hf. cbn [length]. f_equal. apply IH.
  intros k Hk. apply Hl. by right.
Qed.

Lemma length_by_type (l : list ftype) :
  length (filter (fun u => u = Hospital) l)
  + length (filter (fun u => u = RHC) l)
  + length (filter (fun u => u = FQHC) l)
  = length l.
Proof.
  induction l as [|t l IH]; [done|].
  rewrite !filter_cons.
  destruct t; repeat case_decide; try done; cbn [length] in *; lia.
Qed.

(** X2: the per-category breakdown stored with a facility's neighbour count
    adds up to that count. *)
Theorem breakdown_adds_up (facilities : list facility) (i : nat) :
  i < length facilities →
  ∃ breakdown,
    overlap_types facilities !! i = Some breakdown
    ∧ default 0 (breakdown !! Hospital) + default 0 (breakdown !! RHC)
      + default 0 (breakdown !! FQHC)
      = overlaps_at facilities i.
Proof.
  intros Hi.
  exists (value_counts
            (types_at facilities (neighbours SERVICE_RADIUS facilities i))).
  split.
  - unfold overlap_types, overlap_types_within. rewrite list_lookup_fmap.
    unfold range. rewrite lookup_seq_lt by lia.
    cbn [fmap option_fmap option_map Nat.add].
    by rewrite overlap_row_neighbours.
  - rewrite !value_counts_lookup, length_by_type, overlaps_at_neighbours by done.
    apply length_types_at. intros j Hj%elem_of_neighbours. lia.
Qed.

Lemma length_zero_iff_nil {A : Type} (l : list A) : length l = 0 ↔ l = [].
Proof. by destruct l. Qed.

(** X3: a facility is listed as isolated exactly when no other facility is
    within 20 miles of it; the list has no repetition and its length is the
    [isolated_facilities] figure of the report. *)
Theorem isolated_has_no_facility_in_reach (facilities : list facility) :
  (∀ i, i ∈ isolated facilities
        ↔ i < length facilities
          ∧ ∀ j, j < length facilities → j ≠ i →
                 float_leb (distance facilities i j) (Fin 20) = false)
  ∧ NoDup (isolated facilities)
  ∧ Results.isolated_facilities (results facilities)
    = length (isolated facilities).
Proof.
  split; [|split; [apply NoDup_filter, NoDup_range|done]].
  intros i. unfold isolated. rewrite list_elem_of_filter, elem_of_range.
  split.
  - intros [Hzero [_ Hi]]. split; [done|]. intros j Hj Hne.
    rewrite overlaps_at_neighbours in Hzero by done.
    apply length_zero_iff_nil in Hzero.
    destruct (float_leb (distance facilities i j) (Fin 20)) eqn:Hle; [|done].
    assert (j ∈ neighbours SERVICE_RADIUS facilities i) as Hin.
    { apply elem_of_neighbours. unfold SERVICE_RADIUS. by rewrite Hle. }
    rewrite Hzero in Hin. by apply elem_of_nil in Hin.
  - intros [Hi Hfar]. split; [|lia].
    rewrite overlaps_at_neighbours by done. apply length_zero_iff_nil.
    apply elem_of_nil_inv. intros j (Hj & Hne & Hle)%elem_of_neighbours.
    unfold SERVICE_RADIUS in Hle. by rewrite Hfar in Hle.
Qed.

Lemma count_type_partition (facilities : list facility) :
  count_type Hospital facilities + count_type RHC facilities
  + count_type FQHC facilities
  = length facilities.
Proof.
  unfold count_type. induction facilities as [|f l IH]; [done|].
  rewrite !filter_cons. destruct f as [? [] ? ? ? ?]; cbn [type length] in *;
    repeat case_decide; try done; cbn [length]; lia.
Qed.

(** X4: in the saved report the three per-category counts add up to
    [total_facilities]. *)
Theorem report_counts_add_up (facilities : list facility) :
  Results.hospitals (results facilities) + Results.rhcs (results facilities)
  + Results.fqhcs (results facilities)
  = Results.total_facilities (results facilities).
Proof. apply count_type_partition. Qed.

Lemma redundancy_score_eq (facilities : list facility) :
  Results.redundancy_score (results facilities)
  = (inject_Z (Z.of_nat (sum_list (overlaps facilities))) / 2
     / inject_Z (Z.of_nat (length facilities)))%Q.
Proof. done. Qed.

Lemma facility_count_pos (facilities : list facility) :
  facilities ≠ [] → (0 < inject_Z (Z.of_nat (length facilities)))%Q.
Proof.
  intros Hne. change 0%Q with (inject_Z 0). rewrite <- Zlt_Qlt.
  destruct facilities; [done|]. cbn [length]. lia.
Qed.

(** X5: for a non-empty facility list the redundancy score lies between 0
    and (N - 1) / 2. *)
Theorem redundancy_score_bounds (facilities : list facility) :
  facilities ≠ [] →
  (0 <= Results.redundancy_score (results facilities))%Q
  ∧ (Results.redundancy_score (results facilities) * 2
     <= inject_Z (Z.of_nat (length facilities - 1)))%Q.
Proof.
  intros Hne. pose proof (facility_count_pos facilities Hne) as Hpos.
  pose proof (sum_overlaps_le facilities) as Hsum.
  rewrite redundancy_score_eq.
  set (s := sum_list (overlaps facilities)) in *.
  set (n := length facilities) in *.
  split.
  - apply Qle_shift_div_l; [done|]. rewrite Qmult_0_l.
    apply Qle_shift_div_l; [done|]. rewrite Qmult_0_l.
    change 0%Q with (inject_Z 0). rewrite <- Zle_Qle. lia.
  - assert (inject_Z (Z.of_nat s) / 2 / inject_Z (Z.of_nat n) * 2
            == inject_Z (Z.of_nat s) / inject_Z (Z.of_nat n))%Q as ->.
    { field. intros Hzero. rewrite Hzero in Hpos. by apply Qlt_irrefl in Hpos. }
    apply Qle_shift_div_r; [done|].
    rewrite <- inject_Z_mult, <- Zle_Qle. lia.
Qed.

Lemma filter_all {A : Type} (P : A → Prop) `{!∀ x, Decision (P x)}
    (l : list A) :
  (∀ x, x ∈ l → P x) → filter P l = l.
Proof.
  induction l as [|x l IH]; intros Hall; [done|].
  rewrite filter_cons_True by (apply Hall; left).
  f_equal. apply IH. intros y Hy. apply Hall. by right.
Qed.

Lemma sum_list_zero (l : list nat) :
  sum_list l = 0 ↔ Forall (fun c => c = 0) l.
Proof.
  induction l as [|c l IH]; [by split; [constructor|]|].
  rewrite sum_list_cons, Forall_cons, <- IH. lia.
Qed.

(** X6: for a non-empty facility list the redundancy score is 0 exactly
    when every facility is isolated, that is when the report's
    [isolated_facilities] equals its [total_facilities]. *)
Theorem redundancy_score_zero_iff_all_isolated (facilities : list facility) :
  facilities ≠ [] →
  ((Results.redundancy_score (results facilities) == 0)%Q
   ↔ isolated facilities = range 0 (length facilities))
  ∧ (isolated facilities = range 0 (length facilities)
     ↔ Results.isolated_facilities (results facilities)
       = Results.total_facilities (results facilities)).
Proof.
  intros Hne. pose proof (facility_count_pos facilities Hne) as Hpos.
  assert (isolated facilities = range 0 (length facilities)
          ↔ Forall (fun c => c = 0) (overlaps facilities)) as Hall.
  { unfold isolated. split.
    - intros Heq. apply Forall_lookup. intros i c Hc.
      assert (i < length facilities) as Hi.
      { apply lookup_lt_Some in Hc. by rewrite length_overlaps in Hc. }
      assert (i ∈ range 0 (length facilities)) as Hin
        by (apply elem_of_range; lia).
      rewrite <- Heq in Hin. apply list_elem_of_filter in Hin as [Hzero _].
      unfold overlaps_at in Hzero. by rewrite Hc in Hzero.
    - intros Hzero. apply filter_all. intros i Hi%elem_of_range.
      unfold overlaps_at.
      destruct (overlaps facilities !! i) as [c|] eqn:Hc; [|done].
      rewrite Forall_lookup in Hzero. by apply (Hzero i c). }
  split.
  - rewrite Hall, <- sum_list_zero, redundancy_score_eq. split.
    + intros Hscore.
      destruct (sum_list (overlaps facilities)) as [|s]; [done|]. exfalso.
      assert (0 < inject_Z (Z.of_nat (S s)) / 2
                  / inject_Z (Z.of_nat (length facilities)))%Q as Hlt.
      { apply Qlt_shift_div_l; [done|]. rewrite Qmult_0_l.
        apply Qlt_shift_div_l; [done|]. rewrite Qmult_0_l.
        change 0%Q with (inject_Z 0). rewrite <- Zlt_Qlt. lia. }
      rewrite Hscore in Hlt. by apply Qlt_irrefl in Hlt.
    + intros ->. cbn [Z.of_nat inject_Z]. unfold Qdiv. by rewrite !Qmult_0_l.
  - cbn [results Results.isolated_facilities Results.total_facilities].
    split; [intros ->; rewrite length_range; lia|].
    intros Hlen. unfold isolated in *. apply filter_all.
    intros i Hi. destruct (decide (overlaps_at facilities i = 0)); [done|].
    exfalso.
    pose proof (length_filter_lt (fun i => overlaps_at facilities i = 0)
                  (range 0 (length facilities)) i Hi) as Hlt.
    rewrite length_range in Hlt. specialize (Hlt ltac:(done)). lia.
Qed.

(** ** The shape of the clusters *)

Lemma float_leb_Fin_mono (x : float) (a b : Q) :
  (a <= b)%Q → float_leb x (Fin a) = true → float_leb x (Fin b) = true.
Proof.
  intros Hab. destruct x as [q| | |]; cbn [float_leb]; try done.
  rewrite !Qle_bool_iff. intros Hqa. by eapply Qle_trans.
Qed.

Lemma clusters_from_seeds_origin (facilities : list facility)
    (seeds : list nat) (visited : gset nat) (cluster : list nat) :
  cluster ∈ clusters_from_seeds facilities seeds visited →
  ∃ i visited', i ∈ seeds ∧ cluster = cluster_around facilities visited' i.
Proof.
  revert visited. induction seeds as [|i seeds IH]; intros visited.
  - cbn [clusters_from_seeds]. by intros ?%elem_of_nil.
  - cbn [clusters_from_seeds].
    destruct (decide (i ∈ visited)).
    + intros (j & v & Hj & ->)%IH. exists j, v. split; [by right|done].
    + intros [Hin|Hin]%elem_of_app.
      * destruct (decide (3 ≤ length (cluster_around facilities visited i)));
          [|by apply elem_of_nil in Hin].
        apply list_elem_of_singleton in Hin as ->.
        exists i, visited. split; [left|done].
      * apply IH in Hin as (j & v & Hj & ->).
        exists j, v. split; [by right|done].
Qed.

Lemma elem_of_high_overlap (facilities : list facility) (i : nat) :
  i ∈ high_overlap facilities
  ↔ i < length facilities ∧ 5 ≤ overlaps_at facilities i.
Proof.
  unfold high_overlap. rewrite list_elem_of_filter, elem_of_range. lia.
Qed.

Lemma cluster_around_members (facilities : list facility)
    (visited : gset nat) (i j : nat) :
  j ∈ cluster_around facilities visited i →
  j = i
  ∨ (j < length facilities ∧ j ≠ i
     ∧ float_leb (distance facilities i j) (Fin 10) = true).
Proof.
  unfold cluster_around. rewrite elem_of_cons, list_elem_of_filter.
  intros [->|[(Hne & _ & Hle) Hj%elem_of_range]]; [by left|right].
  split; [lia|]. split; [done|]. by apply Is_true_true.
Qed.

(** Every reported cluster is a seed followed by facilities within 10 miles
    of that seed. *)
Lemma cluster_star (facilities : list facility) (cluster : list nat) :
  cluster ∈ consolidation_opportunities facilities →
  ∃ i rest,
    cluster = i :: rest
    ∧ i < length facilities ∧ 5 ≤ overlaps_at facilities i
    ∧ Forall (fun j => j < length facilities ∧ j ≠ i
                       ∧ float_leb (distance facilities i j) (Fin 10) = true)
             rest.
Proof.
  rewrite consolidation_from_seeds.
  intros (i & v & Hi & ->)%clusters_from_seeds_origin.
  apply elem_of_high_overlap in Hi as [Hi Hfive].
  eexists i, _. split; [reflexivity|]. split; [done|]. split; [done|].
  apply Forall_forall. intros j Hj.
  assert (j ≠ i) as Hne by (apply list_elem_of_filter in Hj as [[? _] _]; done).
  destruct (cluster_around_members facilities v i j) as [->|?];
    [unfold cluster_around; by right|done|done].
Qed.

Lemma overlaps_at_pos (facilities : list facility) (i j : nat) :
  i < length facilities → j < length facilities → j ≠ i →
  float_leb (distance facilities i j) (Fin 20) = true →
  1 ≤ overlaps_at facilities i.
Proof.
  intros Hi Hj Hne Hle. rewrite overlaps_at_neighbours by done.
  assert (j ∈ neighbours SERVICE_RADIUS facilities i) as Hin.
  { apply elem_of_neighbours. unfold SERVICE_RADIUS. by rewrite Hle. }
  destruct (neighbours SERVICE_RADIUS facilities i);
    [by apply elem_of_nil in Hin|cbn [length]; lia].
Qed.

Lemma cluster_member_overlaps (facilities : list facility)
    (cluster : list nat) (x : nat) :
  cluster ∈ consolidation_opportunities facilities → x ∈ cluster →
  x < length facilities ∧ 1 ≤ overlaps_at facilities x.
Proof.
  intros (i & rest & -> & Hi & Hfive & Hrest)%cluster_star
    [->|Hx]%elem_of_cons; [split; [done|lia]|].
  rewrite Forall_forall in Hrest.
  destruct (Hrest x Hx) as (Hx' & Hne & Hle). split; [done|].
  apply (overlaps_at_pos facilities x i); [done|done|congruence|].
  rewrite distance_sym. by apply (float_leb_Fin_mono _ 10 20).
Qed.

(** X7: every reported cluster is a star around its first member: that
    member has at least 5 neighbours within 20 miles, and every other member
    is another facility within 10 miles of it. *)
Theorem clusters_are_stars (facilities : list facility) :
  Forall
    (fun cluster =>
       ∃ i rest,
         cluster = i :: rest
         ∧ i < length facilities ∧ 5 ≤ overlaps_at facilities i
         ∧ Forall (fun j => j < length facilities ∧ j ≠ i
                            ∧ float_leb (distance facilities i j) (Fin 10)
                              = true)
                  rest)
    (consolidation_opportunities facilities).
Proof. apply Forall_forall. intros cluster. apply cluster_star. Qed.

(** X8: every member of a reported cluster has at least one neighbour
    within 20 miles; an isolated facility is a member of no cluster. *)
Theorem isolated_never_clustered (facilities : list facility) :
  Forall (fun cluster =>
            Forall (fun x => 1 ≤ overlaps_at facilities x
                             ∧ x ∉ isolated facilities) cluster)
         (consolidation_opportunities facilities).
Proof.
  apply Forall_forall. intros cluster Hcluster.
  apply Forall_forall. intros x Hx.
  destruct (cluster_member_overlaps facilities cluster x Hcluster Hx)
    as [_ Hpos].
  split; [done|]. unfold isolated. rewrite list_elem_of_filter. lia.
Qed.

Lemma length_concat_ge (n : nat) (ls : list (list nat)) :
  Forall (fun l => n ≤ length l) ls → n * length ls ≤ length (concat ls).
Proof.
  induction ls as [|l ls IH]; intros Hall; cbn [concat length]; [lia|].
  apply Forall_cons in Hall as [Hl Hall]. rewrite length_app.
  specialize (IH Hall). lia.
Qed.

Lemma elem_of_concat {A : Type} (ls : list (list A)) (x : A) :
  x ∈ concat ls ↔ ∃ l, l ∈ ls ∧ x ∈ l.
Proof.
  rewrite list_elem_of_In, in_concat. split.
  - intros (l & Hl & Hx). exists l. by rewrite !list_elem_of_In.
  - intros (l & Hl & Hx). exists l. by rewrite <- !list_elem_of_In.
Qed.

(** X9: clusters and isolated facilities use up distinct facilities: three
    times the number of clusters plus the number of isolated facilities is
    at most the number of facilities, in the run and in the saved report. *)
Theorem clusters_and_isolated_fit (facilities : list facility) :
  3 * length (consolidation_opportunities facilities)
  + length (isolated facilities)
  ≤ length facilities
  ∧ 3 * Results.consolidation_clusters (results facilities)
    + Results.isolated_facilities (results facilities)
    ≤ Results.total_facilities (results facilities).
Proof.
  assert (3 * length (consolidation_opportunities facilities)
          + length (isolated facilities) ≤ length facilities) as Hfit;
    [|done].
  assert (NoDup (concat (consolidation_opportunities facilities)
                 ++ isolated facilities)) as Hnd.
  { apply NoDup_app. split; [|split].
    - rewrite consolidation_from_seeds.
      apply clusters_from_seeds_disjoint.
    - intros x (cluster & Hcluster & Hx)%elem_of_concat.
      destruct (cluster_member_overlaps facilities cluster x Hcluster Hx)
        as [_ Hpos].
      unfold isolated. rewrite list_elem_of_filter. lia.
    - apply NoDup_filter, NoDup_range. }
  assert (∀ x, x ∈ concat (consolidation_opportunities facilities)
                     ++ isolated facilities →
               x ∈ range 0 (length facilities)) as Hsub.
  { intros x [(cluster & Hcluster & Hx)%elem_of_concat|Hx]%elem_of_app.
    - destruct (cluster_member_overlaps facilities cluster x Hcluster Hx)
        as [Hlt _]. apply elem_of_range. lia.
    - unfold isolated in Hx. by apply list_elem_of_filter in Hx as [_ ?]. }
  pose proof (submseteq_length _ _ (NoDup_submseteq _ _ Hnd Hsub)) as Hlen.
  rewrite length_app, length_range in Hlen.
  pose proof (length_concat_ge 3 (consolidation_opportunities facilities)) as Hge.
  rewrite consolidation_from_seeds in Hge at 1.
  specialize (Hge (clusters_from_seeds_size _ _ _)). lia.
Qed.

Lemma filter_none {A : Type} (P : A → Prop) `{!∀ x, Decision (P x)}
    (l : list A) :
  (∀ x, x ∈ l → ¬ P x) → filter P l = [].
Proof.
  induction l as [|x l IH]; intros Hnone; [done|].
  rewrite filter_cons_False by (apply Hnone; left).
  apply IH. intros y Hy. apply Hnone. by right.
Qed.

(** X10: small inputs have no consolidation candidates: with at most five
    facilities there is no seed and no cluster, and with at most four no RHC
    and no FQHC is counted as redundant for the cost estimate. *)
Theorem few_facilities_no_cluster (facilities : list facility) :
  (length facilities ≤ 5 →
   high_overlap facilities = []
   ∧ consolidation_opportunities facilities = []
   ∧ Results.consolidation_clusters (results facilities) = 0)
  ∧ (length facilities ≤ 4 →
     redundant_rhcs facilities = 0 ∧ redundant_fqhcs facilities = 0).
Proof.
  split.
  - intros Hfew.
    assert (high_overlap facilities = []) as Hnone.
    { apply filter_none. intros i Hi%elem_of_range.
      pose proof (overlaps_at_lt facilities i). lia. }
    assert (consolidation_opportunities facilities = []) as Hempty
      by (unfold consolidation_opportunities; by rewrite Hnone).
    split; [done|]. split; [done|].
    cbn [results Results.consolidation_clusters]. by rewrite Hempty.
  - intros Hfew. unfold redundant_rhcs, redundant_fqhcs, redundant_of.
    rewrite !filter_none; [done| |];
      intros i Hi%elem_of_range [_ Hmany];
      pose proof (overlaps_at_lt facilities i); lia.
Qed.

(** X11: the first facility with at least 5 overlaps decides the first
    group: the group is that facility and every other facility within 10
    miles of it; when the group has at least 3 members it is the first
    reported cluster; and no member of the group belongs to any other
    cluster, so that the members of a group of fewer than 3 belong to no
    cluster at all. *)
Theorem first_seed_takes_its_surroundings (facilities : list facility)
    (i0 : nat) (later : list nat) :
  high_overlap facilities = i0 :: later →
  let group := cluster_around facilities ∅ i0 in
  (∀ j, j ∈ group
        ↔ j = i0
          ∨ (j < length facilities ∧ j ≠ i0
             ∧ float_leb (distance facilities i0 j) (Fin 10) = true))
  ∧ (3 ≤ length group →
     head (consolidation_opportunities facilities) = Some group)
  ∧ (∀ cluster x,
       cluster ∈ consolidation_opportunities facilities →
       x ∈ group → x ∈ cluster →
       cluster = group ∧ 3 ≤ length group).
Proof.
  intros Hseeds group. split; [|split].
  - intros j. split; [apply cluster_around_members|].
    subst group. unfold cluster_around.
    rewrite elem_of_cons, list_elem_of_filter, elem_of_range.
    intros [->|(Hj & Hne & Hle)]; [by left|right].
    split; [|lia]. split; [done|]. split; [apply not_elem_of_empty|].
    by apply Is_true_true.
  - intros Hlen. rewrite consolidation_from_seeds.
    unfold seeds_in_input_order. fold (high_overlap facilities).
    rewrite Hseeds. cbn [clusters_from_seeds].
    rewrite decide_False by apply not_elem_of_empty.
    fold group. by rewrite decide_True.
  - intros cluster x. rewrite consolidation_from_seeds.
    unfold seeds_in_input_order. fold (high_overlap facilities).
    rewrite Hseeds. cbn [clusters_from_seeds].
    rewrite decide_False by apply not_elem_of_empty. fold group.
    intros [Hin|Hin]%elem_of_app Hgroup Hx.
    + destruct (decide (3 ≤ length group)); [|by apply elem_of_nil in Hin].
      by apply list_elem_of_singleton in Hin as ->.
    + exfalso.
      destruct (clusters_from_seeds_disjoint facilities later
                  (list_to_set group ∪ ∅)) as [_ Hfresh].
      apply (Hfresh x).
      * apply elem_of_concat. by exists cluster.
      * apply elem_of_union. left. by apply elem_of_list_to_set.
Qed.

Lemma value_counts_total (l : list ftype) :
  default 0 (value_counts l !! Hospital) + default 0 (value_counts l !! RHC)
  + default 0 (value_counts l !! FQHC)
  = length l.
Proof. rewrite !value_counts_lookup. apply length_by_type. Qed.

(** X12: the printed cluster summaries cover the first five clusters at
    most; each shows a size of at least 3, and its per-category counts add
    up to that size. *)
Theorem cluster_summaries_consistent (facilities : list facility) :
  length (cluster_summaries facilities)
  = Nat.min 5 (length (consolidation_opportunities facilities))
  ∧ Forall (fun summary =>
              3 ≤ summary.1.2
              ∧ default 0 (summary.2 !! Hospital)
                + default 0 (summary.2 !! RHC)
                + default 0 (summary.2 !! FQHC)
                = summary.1.2)
           (cluster_summaries facilities).
Proof.
  unfold cluster_summaries. split; [by rewrite length_fmap, length_take|].
  apply Forall_fmap, Forall_forall.
  intros cluster (k & Hcluster%list_elem_of_lookup_2 & _)%elem_of_take.
  unfold compose. cbn [fst snd].
  split.
  - pose proof (clusters_from_seeds_size facilities
                  (seeds_in_input_order facilities) ∅) as Hsize.
    rewrite <- consolidation_from_seeds, Forall_forall in Hsize.
    by apply Hsize.
  - unfold cluster_types. rewrite value_counts_total.
    apply (length_types_at facilities cluster). intros j Hj.
    by destruct (cluster_member_overlaps facilities cluster j Hcluster Hj).
Qed.

(** ** The ranked lists *)

Lemma top_records_overlaps (facilities : list facility) (l : list nat) :
  (∀ i, i ∈ l → i < length facilities) →
  Results.overlaps <$> omap (top_record facilities) l
  = overlaps_at facilities <$> l.
Proof.
  induction l as [|i l IH]; intros Hl; [done|].
  cbn [omap list_omap].
  destruct (lookup_lt_is_Some_2 facilities i) as [f Hf]; [apply Hl; left|].
  unfold top_record at 1. rewrite Hf.
  cbn [fmap option_fmap option_map]. rewrite !fmap_cons.
  cbn [Results.overlaps]. f_equal. apply IH.
  intros j Hj. apply Hl. by right.
Qed.

(** X13: the printed top list holds the facilities with the most overlaps:
    no facility left out of it has more overlaps than one in it, and it has
    15 entries unless there are fewer facilities.  The list saved in the
    report is in non-increasing order of overlaps and its first entry
    carries the largest count of all. *)
Theorem top_lists_hold_the_largest (facilities : list facility) :
  let saved :=
    Results.overlaps <$> Results.top_redundant_facilities (results facilities)
  in
  (∀ i j, i ∈ top_redundant facilities → j < length facilities →
          j ∉ top_redundant facilities →
          overlaps_at facilities j ≤ overlaps_at facilities i)
  ∧ length (top_redundant facilities) = Nat.min 15 (length facilities)
  ∧ StronglySorted (fun a b => b ≤ a) saved
  ∧ (∀ c, head saved = Some c →
          Forall (fun count => count ≤ c) (overlaps facilities)).
Proof.
  intros saved.
  destruct (top_redundant_sorted_prefix facilities)
    as (r & Hperm & Hsorted & Htop).
  assert (∀ i, i ∈ r → i < length facilities) as Hvalid.
  { intros i Hi. rewrite Hperm in Hi. apply elem_of_range in Hi. lia. }
  assert (saved = overlaps_at facilities <$> take 10 r) as Hsaved.
  { subst saved. cbn [results Results.top_redundant_facilities].
    rewrite Htop, take_take.
    apply top_records_overlaps.
    intros i (k & Hi%list_elem_of_lookup_2 & _)%elem_of_take.
    by apply Hvalid. }
  rewrite Htop.
  split; [|split; [|split]].
  - intros i j Hi Hj Hout.
    rewrite <- (take_drop 15 r) in Hsorted.
    assert (j ∈ drop 15 r) as Hdrop.
    { assert (j ∈ r) as Hin by (rewrite Hperm; apply elem_of_range; lia).
      rewrite <- (take_drop 15 r) in Hin.
      by apply elem_of_app in Hin as [?|?]. }
    exact (StronglySorted_app_1_elem_of _ _ _ i j Hsorted Hi Hdrop).
  - by rewrite length_take, Hperm, length_range, Nat.sub_0_r.
  - rewrite Hsaved.
    rewrite <- (take_drop 10 r) in Hsorted.
    apply StronglySorted_app_1_l in Hsorted.
    eapply StronglySorted_fmap; [|exact Hsorted].
    by intros i j Hrank.
  - intros c Hc. rewrite Hsaved in Hc.
    destruct r as [|i r]; [done|].
    cbn in Hc. injection Hc as <-.
    apply StronglySorted_inv in Hsorted as [_ Hfirst].
    apply Forall_lookup. intros j count Hcount.
    pose proof (lookup_lt_Some _ _ _ Hcount) as Hj.
    rewrite length_overlaps in Hj.
    assert (count = overlaps_at facilities j) as ->
      by (unfold overlaps_at; by rewrite Hcount).
    assert (j ∈ i :: r) as Hin
      by (rewrite Hperm; apply elem_of_range; lia).
    apply elem_of_cons in Hin as [->|Hin]; [done|].
    rewrite Forall_forall in Hfirst. exact (Hfirst j Hin).
Qed.

(** ** The facility list *)

Lemma entry_of_located (t : ftype) (r : row) (f : facility) :
  entry_of t r = Some f →
  type f = t
  ∧ lat f = row_lat t r ∧ lon f = row_lon t r
  ∧ float_neb (lat f) zero = true ∧ float_neb (lon f) zero = true
  ∧ (t = RHC → isna (lat f) = false ∧ isna (lon f) = false).
Proof.
  destruct t; cbn [entry_of row_lat row_lon];
    unfold hospital_entry, rhc_entry, fqhc_entry.
  - destruct (float_neb _ zero) eqn:Hlat; [|done].
    destruct (float_neb _ zero) eqn:Hlon in |- *; [|done].
    cbn [andb]. by intros [= <-].
  - destruct (float_neb _ zero) eqn:Hlat; [|done].
    destruct (float_neb _ zero) eqn:Hlon in |- *; [|done].
    destruct (isna _) eqn:Hna1; [done|].
    destruct (isna _) eqn:Hna2 in |- *; [done|].
    cbn [andb negb]. by intros [= <-].
  - destruct (float_neb _ zero) eqn:Hlat; [|done].
    destruct (float_neb _ zero) eqn:Hlon in |- *; [|done].
    cbn [andb]. by intros [= <-].
Qed.

Lemma elem_of_prepare_facilities (hospitals rhcs fqhcs : list row)
    (f : facility) :
  f ∈ prepare_facilities hospitals rhcs fqhcs
  ↔ ∃ t r, entry_of t r = Some f
           ∧ r ∈ match t with
                 | Hospital => hospitals
                 | RHC => rhcs
                 | FQHC => fqhcs
                 end.
Proof.
  unfold prepare_facilities. rewrite !elem_of_app, !list_elem_of_omap. split.
  - intros [(r & Hr & Hf)|[(r & Hr & Hf)|(r & Hr & Hf)]].
    + by exists Hospital, r.
    + by exists RHC, r.
    + by exists FQHC, r.
  - intros ([] & r & Hf & Hr); eauto.
Qed.

(** X14: every facility that enters the analysis comes from a row of the
    frame of its category and carries the coordinates read from that row;
    both coordinates compare different from 0, and those of an RHC are not
    NaN. *)
Theorem facilities_have_nonzero_coordinates (hospitals rhcs fqhcs : list row) :
  Forall
    (fun f =>
       (∃ r, r ∈ match type f with
                 | Hospital => hospitals
                 | RHC => rhcs
                 | FQHC => fqhcs
                 end
             ∧ lat f = row_lat (type f) r ∧ lon f = row_lon (type f) r)
       ∧ float_neb (lat f) zero = true ∧ float_neb (lon f) zero = true
       ∧ (type f = RHC → isna (lat f) = false ∧ isna (lon f) = false))
    (prepare_facilities hospitals rhcs fqhcs).
Proof.
  apply Forall_forall.
  intros f (t & r & Hf & Hr)%elem_of_prepare_facilities.
  apply entry_of_located in Hf as (<- & Hlat & Hlon & Hnz1 & Hnz2 & Hna).
  split; [by exists r|]. done.
Qed.

Lemma omap_entry_types (t : ftype) (l : list row) :
  type <$> omap (entry_of t) l
  = replicate (length (omap (entry_of t) l)) t.
Proof.
  induction l as [|r l IH]; [done|]. cbn [omap list_omap].
  destruct (entry_of t r) as [f|] eqn:Hf; [|done].
  apply entry_of_located in Hf as [<- _].
  rewrite fmap_cons. cbn [length replicate]. by rewrite IH.
Qed.

Lemma count_type_app (t : ftype) (l k : list facility) :
  count_type t (l ++ k) = count_type t l + count_type t k.
Proof. unfold count_type. by rewrite filter_app, length_app. Qed.

Lemma count_type_entries (t u : ftype) (l : list row) :
  count_type t (omap (entry_of u) l)
  = if decide (t = u) then length (omap (entry_of u) l) else 0.
Proof.
  unfold count_type. induction l as [|r l IH]; [by case_decide|].
  cbn [omap list_omap].
  destruct (entry_of u r) as [f|] eqn:Hf; [|done].
  apply entry_of_located in Hf as [Hf _].
  rewrite filter_cons, Hf. destruct (decide (u = t)) as [->|Hne].
  - rewrite decide_True in IH |- * by done. cbn [length]. by rewrite IH.
  - rewrite decide_False in IH |- * by congruence. done.
Qed.

Lemma length_omap_le {A B : Type} (f : A → option B) (l : list A) :
  length (omap f l) ≤ length l.
Proof.
  induction l as [|x l IH]; [done|]. cbn [omap list_omap].
  destruct (f x); cbn [length]; lia.
Qed.

(** X15: the facility list holds the hospitals first, then the RHCs, then
    the FQHCs, each block in the order of its frame; the per-category counts
    of the report are the sizes of the blocks, and none exceeds the number
    of rows of its frame. *)
Theorem facilities_grouped_by_category (hospitals rhcs fqhcs : list row) :
  let facilities := prepare_facilities hospitals rhcs fqhcs in
  facilities
  = omap hospital_entry hospitals ++ omap rhc_entry rhcs
    ++ omap fqhc_entry fqhcs
  ∧ type <$> facilities
    = replicate (Results.hospitals (results facilities)) Hospital
      ++ replicate (Results.rhcs (results facilities)) RHC
      ++ replicate (Results.fqhcs (results facilities)) FQHC
  ∧ Results.hospitals (results facilities) ≤ length hospitals
  ∧ Results.rhcs (results facilities) ≤ length rhcs
  ∧ Results.fqhcs (results facilities) ≤ length fqhcs.
Proof.
  intros facilities. subst facilities.
  cbn [results Results.hospitals Results.rhcs Results.fqhcs].
  unfold prepare_facilities.
  change hospital_entry with (entry_of Hospital).
  change rhc_entry with (entry_of RHC).
  change fqhc_entry with (entry_of FQHC).
  rewrite !count_type_app, !count_type_entries.
  repeat (rewrite decide_True by done || rewrite decide_False by done).
  rewrite !Nat.add_0_r, !Nat.add_0_l.
  split; [done|]. split.
  - by rewrite !fmap_app, !omap_entry_types.
  - split; [|split]; apply length_omap_le.
Qed.

(** ** Loading the files *)

Lemma clean_hospitals_rows (name_excluded : string → bool) (f : frame)
    (rows : list row) :
  clean_hospitals name_excluded f = Ok rows →
  "Facility Name" ∈ frame_columns f
  ∧ rows = filter (fun r => hospital_kept name_excluded r) (frame_rows f).
Proof.
  unfold clean_hospitals, has_column. case_bool_decide; [|done].
  by intros [= <-].
Qed.

Lemma clean_rhcs_rows (f : frame) (rows : list row) :
  clean_rhcs f = Ok rows →
  "latitude" ∈ frame_columns f ∧ "longitude" ∈ frame_columns f
  ∧ rows = filter (fun r => rhc_kept r) (frame_rows f).
Proof.
  unfold clean_rhcs, has_column. repeat case_bool_decide; try done.
  by intros [= <-].
Qed.

Lemma analyze_from_files_loaded (name_excluded : string → bool)
    (files : data_files) (out : outcome) :
  analyze_service_redundancy_from_files name_excluded files = Ok out →
  ∃ hospitals rhcs,
    load_hospitals name_excluded (hospital_file files) = Ok hospitals
    ∧ load_rhcs (rhc_file files) = Ok rhcs
    ∧ analyze_service_redundancy hospitals rhcs
        (load_fqhcs (fqhc_file files)) = Ok out.
Proof.
  unfold analyze_service_redundancy_from_files.
  destruct (load_hospitals _ _) as [hospitals|]; [|done].
  destruct (load_rhcs _) as [rhcs|]; [|done].
  intros Hout. by exists hospitals, rhcs.
Qed.

Lemma analyze_facilities (hospitals rhcs fqhcs : list row) (out : outcome) :
  analyze_service_redundancy hospitals rhcs fqhcs = Ok out →
  out_facilities out = prepare_facilities hospitals rhcs fqhcs
  ∧ out_results out = results (prepare_facilities hospitals rhcs fqhcs)
  ∧ prepare_facilities hospitals rhcs fqhcs ≠ [].
Proof.
  unfold analyze_service_redundancy.
  destruct (prepare_facilities hospitals rhcs fqhcs); [done|].
  by intros [= <-].
Qed.

(** X16: every facility of a completed analysis comes from a row of an
    existing file that passed the cleaning of its category: no hospital
    whose name matches the excluded pattern is analysed, and no RHC row
    whose lowercase [latitude] or [longitude] cell is missing, whatever its
    [Latitude] and [Longitude] cells hold. *)
Theorem analysed_rows_passed_the_cleaning (name_excluded : string → bool)
    (files : data_files) (out : outcome) :
  analyze_service_redundancy_from_files name_excluded files = Ok out →
  Forall
    (fun facility =>
       match type facility with
       | Hospital =>
           ∃ f r, hospital_file files = Some f ∧ r ∈ frame_rows f
                  ∧ hospital_entry r = Some facility
                  ∧ contains_excluded name_excluded
                      (get_txt r "Facility Name" None) = false
       | RHC =>
           ∃ f r, rhc_file files = Some f ∧ r ∈ frame_rows f
                  ∧ rhc_entry r = Some facility
                  ∧ isna (get_num r "latitude" NaN) = false
                  ∧ isna (get_num r "longitude" NaN) = false
       | FQHC =>
           ∃ f r, fqhc_file files = Some f ∧ r ∈ frame_rows f
                  ∧ fqhc_entry r = Some facility
       end)
    (out_facilities out).
Proof.
  intros (hospitals & rhcs & Hh & Hr & Hout)%analyze_from_files_loaded.
  apply analyze_facilities in Hout as (-> & _ & _).
  apply Forall_forall.
  intros facility (t & r & Hf & Hin)%elem_of_prepare_facilities.
  pose proof (entry_of_located t r facility Hf) as [<- _].
  destruct (type facility); cbn [entry_of] in Hf.
  - destruct (hospital_file files) as [f|];
      [|cbn in Hh; injection Hh as <-; by apply elem_of_nil in Hin].
    apply clean_hospitals_rows in Hh as [_ ->].
    apply list_elem_of_filter in Hin as [Hkept Hin].
    exists f, r. split; [done|]. split; [done|]. split; [done|].
    unfold hospital_kept in Hkept.
    by destruct (contains_excluded name_excluded _).
  - destruct (rhc_file files) as [f|];
      [|cbn in Hr; injection Hr as <-; by apply elem_of_nil in Hin].
    apply clean_rhcs_rows in Hr as (_ & _ & ->).
    apply list_elem_of_filter in Hin as [Hkept Hin].
    exists f, r. split; [done|]. split; [done|]. split; [done|].
    unfold rhc_kept in Hkept.
    by destruct (isna (get_num r "latitude" NaN)),
                (isna (get_num r "longitude" NaN)).
  - destruct (fqhc_file files) as [f|];
      [|by apply elem_of_nil in Hin].
    by exists f, r.
Qed.

(** X17: the analysis called on the files fails exactly when the hospital
    file lacks the column [Facility Name], or the RHC file lacks the column
    [latitude] or [longitude], or the cleaned rows yield no facility at all
    (as when the three files are missing). *)
Theorem analysis_fails_exactly_when (name_excluded : string → bool)
    (files : data_files) :
  (analyze_service_redundancy_from_files name_excluded files = Raise KeyError
   ↔ (∃ f, hospital_file files = Some f
           ∧ "Facility Name" ∉ frame_columns f)
     ∨ (∃ f, rhc_file files = Some f
             ∧ ("latitude" ∉ frame_columns f
                ∨ "longitude" ∉ frame_columns f))
     ∨ (∃ hospitals rhcs,
          load_hospitals name_excluded (hospital_file files) = Ok hospitals
          ∧ load_rhcs (rhc_file files) = Ok rhcs
          ∧ prepare_facilities hospitals rhcs (load_fqhcs (fqhc_file files))
            = []))
  ∧ (hospital_file files = None → rhc_file files = None →
     fqhc_file files = None →
     analyze_service_redundancy_from_files name_excluded files
     = Raise KeyError).
Proof.
  split.
  - unfold analyze_service_redundancy_from_files, load_hospitals, load_rhcs.
    destruct (hospital_file files) as [hf|].
    + unfold clean_hospitals, has_column. case_bool_decide as Hname.
      * destruct (rhc_file files) as [rf|].
        -- unfold clean_rhcs, has_column.
           case_bool_decide as Hlat; [case_bool_decide as Hlon|].
           ++ unfold analyze_service_redundancy.
              destruct (prepare_facilities _ _ _) as [|fac facs] eqn:Hprep.
              ** split; [intros _|done]. right. right. by eexists _, _.
              ** split; [done|].
                 intros [(f & [= <-] & ?)|[(f & [= <-] & [?|?])|
                   (hs & rs & [= <-] & [= <-] & Hnone)]]; try done.
                 by rewrite Hprep in Hnone.
           ++ split; [intros _|done]. right. left. exists rf. eauto.
           ++ split; [intros _|done]. right. left. exists rf. eauto.
        -- unfold analyze_service_redundancy.
           destruct (prepare_facilities _ _ _) as [|fac facs] eqn:Hprep.
           ** split; [intros _|done]. right. right. by eexists _, _.
           ** split; [done|].
              intros [(f & [= <-] & ?)|[(f & ? & _)|
                (hs & rs & [= <-] & [= <-] & Hnone)]]; try done.
              by rewrite Hprep in Hnone.
      * split; [intros _|done]. left. by exists hf.
    + destruct (rhc_file files) as [rf|].
      * unfold clean_rhcs, has_column.
        case_bool_decide as Hlat; [case_bool_decide as Hlon|].
        -- unfold analyze_service_redundancy.
           destruct (prepare_facilities _ _ _) as [|fac facs] eqn:Hprep.
           ** split; [intros _|done]. right. right. by eexists _, _.
           ** split; [done|].
              intros [(f & ? & _)|[(f & [= <-] & [?|?])|
                (hs & rs & [= <-] & [= <-] & Hnone)]]; try done.
              by rewrite Hprep in Hnone.
        -- split; [intros _|done]. right. left. exists rf. eauto.
        -- split; [intros _|done]. right. left. exists rf. eauto.
      * unfold analyze_service_redundancy.
        destruct (prepare_facilities _ _ _) as [|fac facs] eqn:Hprep.
        -- split; [intros _|done]. right. right. by eexists _, _.
        -- split; [done|].
           intros [(f & ? & _)|[(f & ? & _)|
             (hs & rs & [= <-] & [= <-] & Hnone)]]; try done.
           by rewrite Hprep in Hnone.
  - unfold analyze_service_redundancy_from_files. by intros -> -> ->.
Qed.

(** ** The counts of the cost estimate *)



End Analysis.

(** ** The theorems on worked inputs *)

(** Two clinics exactly 20 miles apart count each other. *)
Lemma neighbour_count_within_radius_witness :
  0 < length two_clinics
  ∧ overlaps twenty_miles two_clinics !! 0 = Some 1
  ∧ 1 ∈ neighbours twenty_miles SERVICE_RADIUS two_clinics 0
  ∧ 0 ∈ neighbours twenty_miles SERVICE_RADIUS two_clinics 1.
Proof.
  assert (0 < length two_clinics) as Hlen by (cbn; lia).
  destruct (neighbour_count_within_radius twenty_miles two_clinics 0 Hlen)
    as (Hcount & _ & _ & Hbound).
  split; [exact Hlen|]. split; [exact Hcount|].
  assert (1 < length two_clinics) as H1 by (cbn; lia).
  assert (1 ≠ 0) as Hne by lia.
  assert (distance twenty_miles two_clinics 0 1 = Fin 20) as Hd
    by reflexivity.
  destruct (Hbound 1 20%Q H1 Hne Hd) as [Hin _].
  apply Hin. reflexivity.
Defined.

(** Three clinics far from one another: no pair within 20 miles, score 0. *)
Lemma redundancy_score_counts_pairs_witness :
  far_apart ≠ []
  ∧ pairs_within meridian_miles SERVICE_RADIUS far_apart = []
  ∧ (Results.redundancy_score (results meridian_miles earlier_first far_apart) == 0)%Q.
Proof.
  assert (far_apart ≠ []) as Hne by discriminate.
  assert (pairs_within meridian_miles SERVICE_RADIUS far_apart = [])
    as Hnone by (vm_compute; reflexivity).
  split; [exact Hne|]. split; [exact Hnone|].
  destruct (redundancy_score_counts_pairs meridian_miles earlier_first far_apart)
    as (_ & _ & Hscore).
  destruct (Hscore Hne) as (_ & _ & Hzero).
  exact (Hzero Hnone).
Defined.

(** The matrix of the seven clinics at positions 0 and 1. *)
Lemma distance_matrix_symmetric_zero_diagonal_witness :
  mget (distances meridian_miles line_of_seven) 0 1
  = mget (distances meridian_miles line_of_seven) 1 0
  ∧ mget (distances meridian_miles line_of_seven) 0 0 = zero
  ∧ (0, 1) ∈ distance_calls meridian_miles line_of_seven.
Proof.
  destruct (distance_matrix_symmetric_zero_diagonal meridian_miles
              line_of_seven) as (_ & Hsym & Hdiag & _ & Hcalls & _).
  assert (0 < length line_of_seven) as H0 by (cbn; lia).
  assert (1 < length line_of_seven) as H1 by (cbn; lia).
  split; [exact (Hsym 0 1 H0 H1)|]. split; [exact (Hdiag 0 H0)|].
  apply Hcalls. cbn. lia.
Defined.

(** The two clusters of the seven clinics. *)
Lemma clusters_disjoint_with_three_members_witness :
  consolidation_opportunities meridian_miles line_of_seven
  = [[0; 1; 2]; [3; 4; 5]]
  ∧ NoDup (concat (consolidation_opportunities meridian_miles line_of_seven))
  ∧ Forall (fun cluster => 3 ≤ length cluster)
           (consolidation_opportunities meridian_miles line_of_seven).
Proof.
  destruct (clusters_disjoint_with_three_members meridian_miles line_of_seven)
    as (Hnd & _ & Hsize & _).
  split; [vm_compute; reflexivity|]. split; [exact Hnd|exact Hsize].
Defined.

(** The cluster of the six clinics of two cities. *)
Lemma dominant_city_is_first_sorted_mode_witness :
  omap id (cluster_cities two_cities [0; 1; 2; 3; 4; 5]) ≠ []
  ∧ dominant_city two_cities [0; 1; 2; 3; 4; 5]
    ∈ omap id (cluster_cities two_cities [0; 1; 2; 3; 4; 5])
  ∧ String.leb (dominant_city two_cities [0; 1; 2; 3; 4; 5]) "Springfield"
    = true.
Proof.
  assert (omap id (cluster_cities two_cities [0; 1; 2; 3; 4; 5]) ≠ [])
    as Hne by (vm_compute; discriminate).
  destruct (dominant_city_is_first_sorted_mode meridian_miles two_cities
              [0; 1; 2; 3; 4; 5]) as (_ & Hmode & _).
  destruct (Hmode Hne) as (Hin & _ & Hfirst).
  split; [exact Hne|]. split; [exact Hin|].
  apply Hfirst; [vm_compute; left|vm_compute; reflexivity].
Defined.

(** A hospital row on the equator, at longitude -92. *)
Lemma zero_coordinate_rows_dropped_witness :
  float_eqb
    (row_lat Hospital (located_row "latitude" "longitude" zero (Fin (-92))))
    zero = true
  ∧ prepare_facilities
      [located_row "latitude" "longitude" zero (Fin (-92))] [] []
    = [].
Proof.
  assert (float_eqb
            (row_lat Hospital
               (located_row "latitude" "longitude" zero (Fin (-92))))
            zero = true) as Hzero by reflexivity.
  destruct (zero_coordinate_rows_dropped Hospital
              (located_row "latitude" "longitude" zero (Fin (-92)))
              (or_introl Hzero)) as (_ & Hdrop & _).
  split; [exact Hzero|]. exact (Hdrop eq_refl [] [] [] []).
Defined.

(** The printed list of sixteen clinics is the first 15 of the ranking; that
    of the seven clinics in a line holds each of them once. *)
Lemma top_redundant_ranked_witness :
  15 < length sixteen_close
  ∧ top_redundant meridian_miles later_first sixteen_close
    = take 15 (ranking meridian_miles sixteen_close)
  ∧ length line_of_seven ≤ 15
  ∧ top_redundant meridian_miles later_first line_of_seven
    ≡ₚ range 0 (length line_of_seven).
Proof.
  assert (15 < length sixteen_close) as Hmany by (cbn; lia).
  assert (length line_of_seven ≤ 15) as Hfew by (cbn; lia).
  destruct (top_redundant_ranked meridian_miles later_first sixteen_close)
    as (_ & _ & Hfast & _).
  destruct (top_redundant_ranked meridian_miles later_first line_of_seven)
    as (_ & _ & _ & Hslow & _).
  split; [exact Hmany|]. split; [exact (proj1 (Hfast Hmany))|].
  split; [exact Hfew|]. exact (Hslow Hfew).
Defined.

(** ** Where the analysis departs from its description *)

(** C1 as stated fails: on the seven clinics the seeds in rank order are
    3, 4, 5, 0, 1, 2 and would give the single cluster [3; 1; 2; 4; 5]; the
    code takes the seeds in input order and reports two clusters. *)
Lemma consolidation_not_in_rank_order :
  overlaps meridian_miles line_of_seven = [5; 5; 5; 6; 6; 6; 3]
  ∧ seeds_in_rank_order meridian_miles line_of_seven = [3; 4; 5; 0; 1; 2]
  ∧ clusters_from_seeds meridian_miles line_of_seven
      (seeds_in_rank_order meridian_miles line_of_seven) ∅
    = [[3; 1; 2; 4; 5]]
  ∧ consolidation_opportunities meridian_miles line_of_seven
    = [[0; 1; 2]; [3; 4; 5]]
  ∧ consolidation_opportunities meridian_miles line_of_seven
    ≠ clusters_from_seeds meridian_miles line_of_seven
        (seeds_in_rank_order meridian_miles line_of_seven) ∅.
Proof.
  repeat split; try (vm_compute; reflexivity).
  vm_compute. discriminate.
Qed.

(** C6 as stated fails: the six clinics form one cluster in which
    Springfield and Columbia both occur three times; Springfield is met
    first, and the dominant city is Columbia. *)
Lemma dominant_city_not_first_met :
  consolidation_opportunities meridian_miles two_cities
  = [[0; 1; 2; 3; 4; 5]]
  ∧ mode_first_met (cluster_cities two_cities [0; 1; 2; 3; 4; 5])
    = Some "Springfield"
  ∧ dominant_city two_cities [0; 1; 2; 3; 4; 5] = "Columbia"
  ∧ (fun summary => summary.1.1) <$> cluster_summaries meridian_miles two_cities
    = ["Columbia"].
Proof. repeat split; vm_compute; reflexivity. Qed.

(** C7 as stated fails in two ways.  With sixteen clinics the printed list
    has fifteen entries, the first fifteen of the ranking, and the saved
    report has ten.  With the seven clinics in a line, whose overlap counts
    are 5, 5, 5, 6, 6, 6, 3, a sort that leaves the later row first among
    equal counts prints the rows 5, 4, 3, 2, 1, 0, 6, where the stable
    order is 3, 4, 5, 0, 1, 2, 6. *)
Lemma report_holds_ten_and_ties_not_stable :
  top_redundant meridian_miles earlier_first sixteen_close
  = [0; 1; 2; 3; 4; 5; 6; 7; 8; 9; 10; 11; 12; 13; 14]
  ∧ length (Results.top_redundant_facilities
              (results meridian_miles earlier_first sixteen_close)) = 10
  ∧ Results.top_redundant_facilities
      (results meridian_miles earlier_first sixteen_close)
    ≠ omap (top_record meridian_miles sixteen_close)
           (take 15 (ranking meridian_miles sixteen_close))
  ∧ overlaps meridian_miles line_of_seven = [5; 5; 5; 6; 6; 6; 3]
  ∧ take 15 (ranking meridian_miles line_of_seven) = [3; 4; 5; 0; 1; 2; 6]
  ∧ top_redundant meridian_miles later_first line_of_seven
    = [5; 4; 3; 2; 1; 0; 6].
Proof.
  split; [vm_compute; reflexivity|]. split; [vm_compute; reflexivity|].
  split; [|repeat split; vm_compute; reflexivity].
  intros Heq. apply (f_equal length) in Heq. vm_compute in Heq. discriminate.
Qed.

(** ** The further properties on worked inputs *)

Lemma breakdown_adds_up_witness :
  0 < length line_of_seven
  ∧ ∃ breakdown,
      overlap_types meridian_miles line_of_seven !! 0 = Some breakdown
      ∧ default 0 (breakdown !! Hospital) + default 0 (breakdown !! RHC)
        + default 0 (breakdown !! FQHC)
        = overlaps_at meridian_miles line_of_seven 0.
Proof.
  assert (0 < length line_of_seven) as Hlen by (cbn; lia).
  split; [exact Hlen|].
  exact (breakdown_adds_up meridian_miles line_of_seven 0 Hlen).
Defined.

Lemma isolated_has_no_facility_in_reach_witness :
  0 ∈ isolated meridian_miles far_apart.
Proof.
  destruct (isolated_has_no_facility_in_reach meridian_miles earlier_first far_apart)
    as (Hiff & _).
  apply Hiff. split; [cbn; lia|].
  intros j Hj Hne. cbn in Hj.
  destruct j as [|[|[|j]]]; [done|reflexivity|reflexivity|lia].
Defined.

Lemma redundancy_score_bounds_witness :
  line_of_seven ≠ []
  ∧ (0 <= Results.redundancy_score (results meridian_miles earlier_first line_of_seven))%Q
  ∧ (Results.redundancy_score (results meridian_miles earlier_first line_of_seven) * 2
     <= inject_Z (Z.of_nat (length line_of_seven - 1)))%Q.
Proof.
  assert (line_of_seven ≠ []) as Hne by discriminate.
  split; [exact Hne|].
  exact (redundancy_score_bounds meridian_miles earlier_first line_of_seven Hne).
Defined.

Lemma redundancy_score_zero_iff_all_isolated_witness :
  far_apart ≠ []
  ∧ isolated meridian_miles far_apart = range 0 (length far_apart)
  ∧ (Results.redundancy_score (results meridian_miles earlier_first far_apart) == 0)%Q.
Proof.
  assert (far_apart ≠ []) as Hne by discriminate.
  assert (isolated meridian_miles far_apart = range 0 (length far_apart))
    as Hall by (vm_compute; reflexivity).
  destruct (redundancy_score_zero_iff_all_isolated meridian_miles earlier_first far_apart
              Hne) as [Hzero _].
  split; [exact Hne|]. split; [exact Hall|]. apply Hzero, Hall.
Defined.

Lemma few_facilities_no_cluster_witness :
  length two_clinics ≤ 4
  ∧ consolidation_opportunities twenty_miles two_clinics = []
  ∧ redundant_rhcs twenty_miles two_clinics = 0.
Proof.
  assert (length two_clinics ≤ 5) as H5 by (cbn; lia).
  assert (length two_clinics ≤ 4) as H4 by (cbn; lia).
  destruct (few_facilities_no_cluster twenty_miles earlier_first two_clinics)
    as [Hclusters Hcost].
  destruct (Hclusters H5) as (_ & Hnone & _).
  destruct (Hcost H4) as [Hrhc _].
  split; [exact H4|]. split; [exact Hnone|exact Hrhc].
Defined.

Lemma first_seed_takes_its_surroundings_witness :
  high_overlap meridian_miles line_of_seven = 0 :: [1; 2; 3; 4; 5]
  ∧ head (consolidation_opportunities meridian_miles line_of_seven)
    = Some (cluster_around meridian_miles line_of_seven ∅ 0).
Proof.
  assert (high_overlap meridian_miles line_of_seven = 0 :: [1; 2; 3; 4; 5])
    as Hseeds by (vm_compute; reflexivity).
  destruct (first_seed_takes_its_surroundings meridian_miles line_of_seven
              0 [1; 2; 3; 4; 5] Hseeds) as (_ & Hfirst & _).
  split; [exact Hseeds|]. apply Hfirst. vm_compute. lia.
Defined.

Lemma top_lists_hold_the_largest_witness :
  overlaps_at meridian_miles sixteen_close 15
  ≤ overlaps_at meridian_miles sixteen_close 0.
Proof.
  destruct (top_lists_hold_the_largest meridian_miles earlier_first sixteen_close)
    as (Hlargest & _).
  assert (top_redundant meridian_miles earlier_first sixteen_close
          = [0; 1; 2; 3; 4; 5; 6; 7; 8; 9; 10; 11; 12; 13; 14]) as Htop
    by (vm_compute; reflexivity).
  apply Hlargest.
  - rewrite Htop. left.
  - cbn. lia.
  - rewrite Htop. intros Hin. apply list_elem_of_In in Hin. cbn in Hin. lia.
Defined.

Lemma facilities_have_nonzero_coordinates_witness :
  Forall (fun f => float_neb (lat f) zero = true
                   ∧ (type f = RHC → isna (lat f) = false))
         (prepare_facilities (frame_rows hospital_frame)
            (frame_rows rhc_frame) (frame_rows fqhc_frame)).
Proof.
  eapply Forall_impl;
    [exact (facilities_have_nonzero_coordinates (frame_rows hospital_frame)
              (frame_rows rhc_frame) (frame_rows fqhc_frame))|].
  intros f (_ & Hlat & _ & Hrhc). split; [exact Hlat|].
  intros Ht. exact (proj1 (Hrhc Ht)).
Defined.

Lemma analysed_rows_passed_the_cleaning_witness :
  ∃ out,
    analyze_service_redundancy_from_files meridian_miles earlier_first mentions_mental
      three_files = Ok out
    ∧ (name <$> out_facilities out)
      = [Some "MERCY HOSPITAL"; Some "Unknown"; Some "Unknown"]
    ∧ Forall
        (fun facility =>
           type facility = Hospital →
           ∃ f r, hospital_file three_files = Some f ∧ r ∈ frame_rows f
                  ∧ hospital_entry r = Some facility
                  ∧ contains_excluded mentions_mental
                      (get_txt r "Facility Name" None) = false)
        (out_facilities out).
Proof.
  destruct (analyze_service_redundancy_from_files meridian_miles earlier_first
              mentions_mental three_files) as [out|e] eqn:Hout;
    [|vm_compute in Hout; discriminate].
  exists out. split; [reflexivity|]. split.
  - vm_compute in Hout. injection Hout as <-. reflexivity.
  - eapply Forall_impl;
      [exact (analysed_rows_passed_the_cleaning meridian_miles
                earlier_first mentions_mental three_files out Hout)|].
    intros facility Hfrom Ht. cbv beta in Hfrom.
    destruct (type facility); [exact Hfrom|discriminate Ht|discriminate Ht].
Defined.

Lemma analysis_fails_exactly_when_witness :
  analyze_service_redundancy_from_files meridian_miles earlier_first mentions_mental
    no_files = Raise KeyError.
Proof.
  destruct (analysis_fails_exactly_when meridian_miles earlier_first mentions_mental
              no_files) as [_ Hmissing].
  exact (Hmissing eq_refl eq_refl eq_refl).
Defined.

